(** * OBSBOT preview pipeline: filter preview widget and virtual camera streamer

    A shallow embedding of [src/gui/VirtualCameraStreamer.cpp] and
    [src/gui/FilterPreviewWidget.cpp], followed by the properties proved
    about them.

    Conventions of the embedding.
    - A C++ [int] is a [Z]; every [int] operation of the source is written
      with the wrapping operators [+i], [-i], [*i] below, so that a result
      outside the 32-bit range is visible in the model.
    - A [uint8_t] is a [byte]; [byte.unsigned] is the integer promotion and
      [byte.of_Z] the conversion back.
    - A [QByteArray] is a [list byte]; a store through a raw pointer into
      its storage either updates the list (index in range) or is recorded
      in an overrun log (index out of range).
    - The [float] stored by the widget is an IEEE binary32 value
      ([spec_float] at precision 24); the quantities computed by the
      shaders and the [qreal] aspect ratios are the rationals they denote
      ([Q]), with exact arithmetic. *)

From Stdlib Require Import ZArith Lia Lqa Bool List String QArith Qminmax SpecFloat.
From stdpp Require Import base list.
From coqutil Require Import Byte.

Local Open Scope Z_scope.

(* ================================================================= *)
(** ** Machine integers *)

Definition INT_MIN : Z := -2147483648.
Definition INT_MAX : Z := 2147483647.

(** Two's-complement reduction of a mathematical integer to an [int]. *)
Definition int_wrap (z : Z) : Z := (z + 2147483648) mod 4294967296 - 2147483648.

Definition fits_int (z : Z) : Prop := INT_MIN <= z <= INT_MAX.

Definition iadd (a b : Z) : Z := int_wrap (a + b).
Definition isub (a b : Z) : Z := int_wrap (a - b).
Definition imul (a b : Z) : Z := int_wrap (a * b).

Declare Scope int_scope.
Delimit Scope int_scope with int.
Infix "+i" := iadd (at level 50, left associativity) : int_scope.
Infix "-i" := isub (at level 50, left associativity) : int_scope.
Infix "*i" := imul (at level 40, left associativity) : int_scope.
Local Open Scope int_scope.

(** [a / b] on non-negative or negative [int]s truncates toward zero. *)
Definition idiv (a b : Z) : Z := Z.quot a b.

(** [a >> n] on a signed [int] is the arithmetic shift. *)
Definition ishr (a n : Z) : Z := Z.shiftr a n.

(* ================================================================= *)
(** ** VirtualCameraStreamer.cpp: colour conversion *)

(** [inline uint8_t clampToByte(int value)] *)
Definition clampToByte (value : Z) : byte :=
  if value <? 0 then byte.of_Z 0
  else if value >? 255 then byte.of_Z 255
  else byte.of_Z value.

(** [struct YuvComponents { uint8_t y; uint8_t u; uint8_t v; }] *)
Record YuvComponents : Type := mkYuv {
  yuv_y : byte;
  yuv_u : byte;
  yuv_v : byte
}.

(** [YuvComponents rgbToYuv(uint8_t r, uint8_t g, uint8_t b)]: the three
    bytes are promoted to [int] and combined with [int] arithmetic. *)
Definition rgbToYuv (r g b : byte) : YuvComponents :=
  let r := byte.unsigned r in
  let g := byte.unsigned g in
  let b := byte.unsigned b in
  let y := ishr (66 *i r +i 129 *i g +i 25 *i b +i 128) 8 +i 16 in
  let u := ishr ((-38) *i r -i 74 *i g +i 112 *i b +i 128) 8 +i 128 in
  let v := ishr (112 *i r -i 94 *i g -i 18 *i b +i 128) 8 +i 128 in
  mkYuv (clampToByte y) (clampToByte u) (clampToByte v).

(** The part of [QImage::Format] the two units distinguish. *)
Inductive Format : Type :=
  | Format_Invalid
  | Format_RGB888
  | Format_RGBA8888
  | Format_Other.

(** A [QImage]: its dimensions, its format, the distance in bytes between
    two scan lines and the pixel storage.  A null image has no storage and
    both dimensions zero. *)
Record QImage : Type := mkImage {
  img_width : Z;
  img_height : Z;
  img_format : Format;
  img_bytesPerLine : Z;
  img_bits : list byte
}.

(** What Qt guarantees of a non-null RGB888 image: positive dimensions that
    fit an [int], scan lines of at least three bytes per pixel, and storage
    for all of them. *)
Definition rgb888_image (image : QImage) : Prop :=
  0 < img_width image /\ 0 < img_height image /\
  img_format image = Format_RGB888 /\
  3 * img_width image <= img_bytesPerLine image <= INT_MAX /\
  fits_int (img_height image) /\
  Z.of_nat (length (img_bits image)) = img_bytesPerLine image * img_height image.

Definition QByteArray : Type := list byte.

(** [image.constScanLine(y)]: the offset of row [y] in the storage. *)
Definition constScanLine (image : QImage) (y : Z) : Z :=
  y * img_bytesPerLine image.

(** [p[k]] for a [const uint8_t *p] into the image storage. *)
Definition peek (image : QImage) (p : Z) : byte :=
  if p <? 0 then byte.of_Z 0
  else default (byte.of_Z 0) (img_bits image !! Z.to_nat p).

(** [QByteArray::resize(n)]: a negative size is taken as zero, a prefix is
    kept, new bytes are unspecified (zero here). *)
Definition resize (buffer : QByteArray) (n : Z) : QByteArray :=
  let n := Z.to_nat n in
  take n buffer ++ replicate (n - length buffer) (byte.of_Z 0).

(** The memory reached through [dst = outBuffer.data()]: the array itself
    and the stores that fell outside of it, in program order. *)
Record OutMem : Type := mkOutMem {
  om_bytes : QByteArray;
  om_overrun : list (Z * byte)
}.

(** [dst[i] = v]. *)
Definition poke (m : OutMem) (i : Z) (v : byte) : OutMem :=
  if (0 <=? i) && (i <? Z.of_nat (length (om_bytes m)))
  then mkOutMem (<[Z.to_nat i := v]> (om_bytes m)) (om_overrun m)
  else mkOutMem (om_bytes m) (om_overrun m ++ [(i, v)]).

(** The pixel whose first byte is at offset [p]. *)
Definition pixelYuv (image : QImage) (p : Z) : YuvComponents :=
  rgbToYuv (peek image p) (peek image (p + 1)) (peek image (p + 2)).

(** Body of the inner loop, lines 71-83: one pixel pair at column [x]. *)
Definition convertPair (image : QImage) (src rowPtr x : Z) (m : OutMem) : OutMem :=
  let p0 := src + x *i 3 in
  let p1 := src + (x +i 1) *i 3 in
  let yuv0 := pixelYuv image p0 in
  let yuv1 := pixelYuv image p1 in
  let u := clampToByte (idiv (byte.unsigned (yuv_u yuv0) +i byte.unsigned (yuv_u yuv1)) 2) in
  let v := clampToByte (idiv (byte.unsigned (yuv_v yuv0) +i byte.unsigned (yuv_v yuv1)) 2) in
  let m := poke m (rowPtr + (x *i 2 +i 0)) (yuv_y yuv0) in
  let m := poke m (rowPtr + (x *i 2 +i 1)) u in
  let m := poke m (rowPtr + (x *i 2 +i 2)) (yuv_y yuv1) in
  poke m (rowPtr + (x *i 2 +i 3)) v.

(** Lines 86-94: the column left over when the width is odd. *)
Definition convertLone (image : QImage) (src rowPtr x : Z) (m : OutMem) : OutMem :=
  let p0 := src + x *i 3 in
  let yuv0 := pixelYuv image p0 in
  let m := poke m (rowPtr + (x *i 2 +i 0)) (yuv_y yuv0) in
  let m := poke m (rowPtr + (x *i 2 +i 1)) (yuv_u yuv0) in
  let m := poke m (rowPtr + (x *i 2 +i 2)) (yuv_y yuv0) in
  poke m (rowPtr + (x *i 2 +i 3)) (yuv_v yuv0).

(** [for (; x + 1 < width; x += 2)]: returns the final [x] with the memory.
    [fuel] bounds the number of iterations; [convertRow] passes enough. *)
Fixpoint pairLoop (fuel : nat) (image : QImage) (src rowPtr width x : Z)
    (m : OutMem) : Z * OutMem :=
  match fuel with
  | O => (x, m)
  | S fuel' =>
      if x +i 1 <? width
      then pairLoop fuel' image src rowPtr width (x +i 2)
             (convertPair image src rowPtr x m)
      else (x, m)
  end.

(** Lines 66-94: one row. *)
Definition convertRow (image : QImage) (width y : Z) (m : OutMem) : OutMem :=
  let src := constScanLine image y in
  let rowPtr := y *i width *i 2 in
  let '(x, m) := pairLoop (Z.to_nat width) image src rowPtr width 0 m in
  if x <? width then convertLone image src rowPtr x m else m.

(** [for (int y = 0; y < height; ++y)]. *)
Fixpoint rowLoop (fuel : nat) (image : QImage) (width height y : Z)
    (m : OutMem) : OutMem :=
  match fuel with
  | O => m
  | S fuel' =>
      if y <? height
      then rowLoop fuel' image width height (y +i 1) (convertRow image width y m)
      else m
  end.

(** [bool convertRgbToYuyv(const QImage &image, QByteArray &outBuffer)]:
    the returned flag and the memory behind [outBuffer] afterwards. *)
Definition convertRgbToYuyv (image : QImage) (outBuffer : QByteArray)
    : bool * OutMem :=
  let width := img_width image in
  let height := img_height image in
  if (width <=? 0) || (height <=? 0) then (false, mkOutMem outBuffer [])
  else
    let m := mkOutMem (resize outBuffer (width *i height *i 2)) [] in
    (true, rowLoop (Z.to_nat height) image width height 0 m).

(** An RGB888 image without row padding beyond [pad] bytes, from its rows
    of pixels; used to write test frames. *)
Definition rgbRow (pad : nat) (row : list (Z * Z * Z)) : list byte :=
  flat_map (fun '(r, g, b) => [byte.of_Z r; byte.of_Z g; byte.of_Z b]) row
  ++ replicate pad (byte.of_Z 0).

Definition rgbImage (width height : Z) (pad : nat) (rows : list (list (Z * Z * Z)))
    : QImage :=
  mkImage width height Format_RGB888 (3 * width + Z.of_nat pad)
          (flat_map (rgbRow pad) rows).

Definition solidRed4x2 : QImage :=
  rgbImage 4 2 0 (replicate 2 (replicate 4 (255, 0, 0))).


(** Reading the output: the byte at a signed index, if there is one. *)
Definition byteAt (l : list byte) (i : Z) : option byte :=
  if i <? 0 then None else l !! Z.to_nat i.

(** The components of the pixel in column [x] of row [y]. *)
Definition rowPixel (image : QImage) (y x : Z) : YuvComponents :=
  pixelYuv image (constScanLine image y + 3 * x).

(** Four consecutive stores, as both loop bodies end with. *)
Definition store4 (m : OutMem) (a : Z) (b0 b1 b2 b3 : byte) : OutMem :=
  poke (poke (poke (poke m a b0) (a + 1) b1) (a + 2) b2) (a + 3) b3.

(** The chroma byte stored for a pair, from the two pixels' own bytes. *)
Definition sharedChroma (c0 c1 : byte) : byte :=
  clampToByte (idiv (byte.unsigned c0 +i byte.unsigned c1) 2).

(** Row [y] of a [width]-pixel image as it should stand in the buffer [l]:
    every pair at an even column as Y0 U Y1 V, and the first two bytes of
    a left-over column as its own Y and U. *)
Definition rowEncoded (image : QImage) (width : Z) (l : list byte) (y : Z) : Prop :=
  (forall x, 0 <= x -> Z.even x = true -> x + 1 < width ->
     let p0 := rowPixel image y x in
     let p1 := rowPixel image y (x + 1) in
     byteAt l (y * width * 2 + x * 2) = Some (yuv_y p0) /\
     byteAt l (y * width * 2 + x * 2 + 1) = Some (sharedChroma (yuv_u p0) (yuv_u p1)) /\
     byteAt l (y * width * 2 + x * 2 + 2) = Some (yuv_y p1) /\
     byteAt l (y * width * 2 + x * 2 + 3) = Some (sharedChroma (yuv_v p0) (yuv_v p1))) /\
  (Z.odd width = true ->
     let p := rowPixel image y (width - 1) in
     byteAt l (y * width * 2 + (width - 1) * 2) = Some (yuv_y p) /\
     byteAt l (y * width * 2 + (width - 1) * 2 + 1) = Some (yuv_u p)).

(** The two stores of the last row's left-over column that fall behind the
    buffer of [width * height * 2] bytes. *)
Definition lastRowSpill (image : QImage) (width height : Z) : list (Z * byte) :=
  let p := rowPixel image (height - 1) (width - 1) in
  [(width * height * 2, yuv_y p); (width * height * 2 + 1, yuv_v p)].

(* ================================================================= *)
(** ** Reference formulas of the colour conversion

    The following three definitions follow the written formulas, over the
    mathematical integers; [rgbToYuv] above is compared with them. *)

Definition clampByte (z : Z) : Z := Z.max 0 (Z.min 255 z).

Definition bt601_Y (R G B : Z) : Z := clampByte ((66 * R + 129 * G + 25 * B + 128) / 2 ^ 8 + 16).
Definition bt601_U (R G B : Z) : Z := clampByte ((-38 * R - 74 * G + 112 * B + 128) / 2 ^ 8 + 128).
Definition bt601_V (R G B : Z) : Z := clampByte ((112 * R - 94 * G - 18 * B + 128) / 2 ^ 8 + 128).

(* ================================================================= *)
(** ** VirtualCameraStreamer.cpp: the device session *)

(** [QSize]; the default-constructed size is (-1, -1). *)
Record QSize : Type := mkSize {
  sz_width : Z;
  sz_height : Z
}.

Definition invalidSize : QSize := mkSize (-1) (-1).

(** [QSize::isValid()]: both dimensions are at least zero. *)
Definition size_isValid (s : QSize) : bool :=
  (0 <=? sz_width s) && (0 <=? sz_height s).

(** [QSize::isEmpty()]: one dimension is at most zero. *)
Definition size_isEmpty (s : QSize) : bool :=
  (sz_width s <=? 0) || (sz_height s <=? 0).

Definition size_eqb (a b : QSize) : bool :=
  (sz_width a =? sz_width b) && (sz_height a =? sz_height b).

(** [QImage::size()] and [QImage::isNull()]: a [QImage] is null exactly
    when it has no pixels, and then both dimensions are zero. *)
Definition img_size (image : QImage) : QSize :=
  mkSize (img_width image) (img_height image).

Definition isNull (image : QImage) : bool :=
  (img_width image <=? 0) || (img_height image <=? 0).

Definition format_eqb (a b : Format) : bool :=
  match a, b with
  | Format_Invalid, Format_Invalid | Format_RGB888, Format_RGB888
  | Format_RGBA8888, Format_RGBA8888 | Format_Other, Format_Other => true
  | _, _ => false
  end.

Inductive AspectRatioMode : Type :=
  | IgnoreAspectRatio
  | KeepAspectRatio
  | KeepAspectRatioByExpanding.

(** The [QImage] operations of Qt the two units call; their pixel work is
    not part of this repository. *)
Record QtImaging : Type := mkQtImaging {
  convertToFormat : QImage -> Format -> QImage;
  scaled : QImage -> QSize -> AspectRatioMode -> QImage;
  copy : QImage -> Z -> Z -> Z -> Z -> QImage
}.

(** The messages of [errorOccurred]. *)
Inductive ErrorMessage : Type :=
  | CannotOpenDevice (path : string)
  | FailedToConfigureFormat
  | FailedToConvertFrame
  | FailedToWriteFrame.

(** What the streamer does to the outside, in program order: the system
    calls with their results and the signals emitted. *)
Inductive Event : Type :=
  | SysOpen (path : string) (fd : Z)
  | SysClose (fd : Z)
  | SysSetFormat (fd width height : Z) (ok : bool)
  | SysWrite (fd : Z) (data : list byte) (written : Z)
  | ErrorOccurred (msg : ErrorMessage).

(** The operating system: what each call answers after a given history. *)
Record Kernel : Type := mkKernel {
  k_open : list Event -> string -> Z;
  k_setFormat : list Event -> Z -> Z -> Z -> bool;
  k_write : list Event -> Z -> list byte -> Z
}.

(** The members of [VirtualCameraStreamer]. *)
Record Streamer : Type := mkStreamer {
  m_fd : Z;
  m_devicePath : string;
  m_enabled : bool;
  m_deviceConfigured : bool;
  m_frameWidth : Z;
  m_frameHeight : Z;
  m_forcedResolution : QSize
}.

Definition kDefaultDevicePath : string := "/dev/video42".

(** The constructor. *)
Definition newStreamer : Streamer :=
  mkStreamer (-1) kDefaultDevicePath false false 0 0 invalidSize.

(** The streamer together with the history of its effects. *)
Record Session : Type := mkSession {
  cam : Streamer;
  history : list Event
}.

(** Member functions are state transformers over [Session]. *)
Definition Cam (A : Type) : Type := Session -> A * Session.

Definition ret {A : Type} (a : A) : Cam A := fun s => (a, s).

Definition bind {A B : Type} (c : Cam A) (k : A -> Cam B) : Cam B :=
  fun s => let '(a, s') := c s in k a s'.

Declare Scope cam_scope.
Delimit Scope cam_scope with cam.
Notation "x <- c ;; k" := (bind c (fun x => k))
  (at level 100, c at next level, right associativity) : cam_scope.
Notation "c ;; k" := (bind c (fun _ => k))
  (at level 100, right associativity) : cam_scope.
Local Open Scope cam_scope.

Definition this : Cam Streamer := fun s => (cam s, s).

Definition update (f : Streamer -> Streamer) : Cam unit :=
  fun s => (tt, mkSession (f (cam s)) (history s)).

Definition record (e : Event) : Cam unit :=
  fun s => (tt, mkSession (cam s) (history s ++ [e])).

Definition set_fd (fd : Z) (c : Streamer) : Streamer :=
  mkStreamer fd (m_devicePath c) (m_enabled c) (m_deviceConfigured c)
             (m_frameWidth c) (m_frameHeight c) (m_forcedResolution c).

Definition set_enabled (b : bool) (c : Streamer) : Streamer :=
  mkStreamer (m_fd c) (m_devicePath c) b (m_deviceConfigured c)
             (m_frameWidth c) (m_frameHeight c) (m_forcedResolution c).

Definition set_deviceConfigured (b : bool) (c : Streamer) : Streamer :=
  mkStreamer (m_fd c) (m_devicePath c) (m_enabled c) b
             (m_frameWidth c) (m_frameHeight c) (m_forcedResolution c).

Definition set_frameSize (width height : Z) (c : Streamer) : Streamer :=
  mkStreamer (m_fd c) (m_devicePath c) (m_enabled c) (m_deviceConfigured c)
             width height (m_forcedResolution c).

Definition set_forcedResolution (r : QSize) (c : Streamer) : Streamer :=
  mkStreamer (m_fd c) (m_devicePath c) (m_enabled c) (m_deviceConfigured c)
             (m_frameWidth c) (m_frameHeight c) r.

(** [::open(path, O_WRONLY)], [::close(fd)], [ioctl(fd, VIDIOC_S_FMT, ...)]
    and [::write(fd, data, size)]. *)
Definition sys_open (k : Kernel) (path : string) : Cam Z :=
  fun s => let fd := k_open k (history s) path in
           (fd, mkSession (cam s) (history s ++ [SysOpen path fd])).

Definition sys_close (fd : Z) : Cam unit := record (SysClose fd).

Definition sys_setFormat (k : Kernel) (fd width height : Z) : Cam bool :=
  fun s => let ok := k_setFormat k (history s) fd width height in
           (ok, mkSession (cam s) (history s ++ [SysSetFormat fd width height ok])).

Definition sys_write (k : Kernel) (fd : Z) (data : list byte) : Cam Z :=
  fun s => let n := k_write k (history s) fd data in
           (n, mkSession (cam s) (history s ++ [SysWrite fd data n])).

Definition emitError (msg : ErrorMessage) : Cam unit := record (ErrorOccurred msg).

(** [void VirtualCameraStreamer::closeDevice()] *)
Definition closeDevice : Cam unit :=
  c <- this ;;
  (if negb (m_fd c =? -1)
   then sys_close (m_fd c) ;; update (set_fd (-1))
   else ret tt) ;;
  update (set_deviceConfigured false) ;;
  update (set_frameSize 0 0).

(** [bool VirtualCameraStreamer::configureFormat(int width, int height)] *)
Definition configureFormat (k : Kernel) (width height : Z) : Cam bool :=
  c <- this ;;
  if m_fd c =? -1 then ret false
  else
    ok <- sys_setFormat k (m_fd c) width height ;;
    if negb ok then emitError FailedToConfigureFormat ;; ret false
    else ret true.

(** Lines 247-269 of [openDevice], entered with an open handle. *)
Definition openDevice_configure (k : Kernel) (width height : Z) : Cam bool :=
  c <- this ;;
  let changed := negb (width =? m_frameWidth c) || negb (height =? m_frameHeight c) in
  if negb (m_deviceConfigured c) || changed then
    reopened <-
      (if changed then
         closeDevice ;;
         fd <- sys_open k (m_devicePath c) ;;
         update (set_fd fd) ;;
         if fd =? -1 then
           emitError (CannotOpenDevice (m_devicePath c)) ;;
           update (set_enabled false) ;;
           ret false
         else ret true
       else ret true) ;;
    if negb reopened then ret false
    else
      ok <- configureFormat k width height ;;
      if negb ok then
        closeDevice ;; update (set_enabled false) ;; ret false
      else
        update (set_deviceConfigured true) ;;
        update (set_frameSize width height) ;;
        ret true
  else ret true.

(** [bool VirtualCameraStreamer::openDevice(int width, int height)] *)
Definition openDevice (k : Kernel) (width height : Z) : Cam bool :=
  c <- this ;;
  if m_fd c =? -1 then
    fd <- sys_open k (m_devicePath c) ;;
    update (set_fd fd) ;;
    if fd =? -1 then
      emitError (CannotOpenDevice (m_devicePath c)) ;;
      update (set_enabled false) ;;
      ret false
    else
      update (set_deviceConfigured false) ;;
      openDevice_configure k width height
  else openDevice_configure k width height.

(** [bool VirtualCameraStreamer::writeFrame(const QImage &image)]; the
    bytes handed to [::write] are the [size()] bytes of the buffer. *)
Definition writeFrame (k : Kernel) (image : QImage) : Cam bool :=
  c <- this ;;
  if m_fd c =? -1 then ret false
  else
    let '(converted, mem) := convertRgbToYuyv image [] in
    if negb converted then emitError FailedToConvertFrame ;; ret false
    else
      let buffer := om_bytes mem in
      let frameSize := Z.of_nat (length buffer) in
      written <- sys_write k (m_fd c) buffer ;;
      if negb (written =? frameSize) then emitError FailedToWriteFrame ;; ret false
      else ret true.

(** [void VirtualCameraStreamer::setEnabled(bool enabled)] *)
Definition setEnabled (enabled : bool) : Cam unit :=
  c <- this ;;
  if Bool.eqb (m_enabled c) enabled then ret tt
  else
    update (set_enabled enabled) ;;
    if negb enabled then closeDevice else ret tt.

(** [void VirtualCameraStreamer::setForcedResolution(const QSize &)] *)
Definition setForcedResolution (resolution : QSize) : Cam unit :=
  c <- this ;;
  let normalized := if size_isValid resolution then resolution else invalidSize in
  if size_eqb normalized (m_forcedResolution c) then ret tt
  else update (set_forcedResolution normalized) ;; closeDevice.

(** Lines 167-219 of [onProcessedFrameReady]: the RGB888 image of the
    target size that is handed to the device, or nothing where the
    function returns before reaching [openDevice]. *)
Definition prepareFrame (qt : QtImaging) (forced : QSize) (frame : QImage)
    : option QImage :=
  let toRgb888 (image : QImage) : option QImage :=
    if negb (format_eqb (img_format image) Format_RGB888) then
      let image := convertToFormat qt image Format_RGB888 in
      if isNull image then None else Some image
    else Some image in
  if isNull frame then None
  else
    match toRgb888 frame with
    | None => None
    | Some image =>
        let targetSize := if size_isValid forced then forced else img_size image in
        if (sz_width targetSize <=? 0) || (sz_height targetSize <=? 0) then None
        else
          let fitted : option (QImage * QSize) :=
            if negb (size_eqb (img_size image) targetSize) then
              if size_isValid forced then
                let scaledImage := scaled qt image targetSize KeepAspectRatioByExpanding in
                if isNull scaledImage then None
                else if negb (size_eqb (img_size scaledImage) targetSize) then
                  let xOffset :=
                    Z.max 0 (idiv (img_width scaledImage -i sz_width targetSize) 2) in
                  let yOffset :=
                    Z.max 0 (idiv (img_height scaledImage -i sz_height targetSize) 2) in
                  Some (copy qt scaledImage xOffset yOffset
                          (sz_width targetSize) (sz_height targetSize), targetSize)
                else Some (scaledImage, targetSize)
              else Some (image, img_size image)
            else Some (image, targetSize) in
          match fitted with
          | None => None
          | Some (image, targetSize) =>
              let image :=
                if negb (size_eqb (img_size image) targetSize)
                then scaled qt image targetSize IgnoreAspectRatio
                else image in
              if isNull image then None else toRgb888 image
          end
    end.

(** [void VirtualCameraStreamer::onProcessedFrameReady(const QImage &)] *)
Definition onProcessedFrameReady (qt : QtImaging) (k : Kernel) (frame : QImage)
    : Cam unit :=
  c <- this ;;
  if negb (m_enabled c) then ret tt
  else
    match prepareFrame qt (m_forcedResolution c) frame with
    | None => ret tt
    | Some image =>
        opened <- openDevice k (img_width image) (img_height image) ;;
        if negb opened then ret tt
        else
          written <- writeFrame k image ;;
          if negb written then closeDevice else ret tt
    end.

(** The events a member function adds to the history. *)
Definition effects {A : Type} (c : Cam A) (s : Session) : list Event :=
  drop (length (history s)) (history (snd (c s))).

Definition opens (l : list Event) : nat :=
  length (List.filter (fun e => match e with SysOpen _ _ => true | _ => false end) l).

Definition formatRequests (l : list Event) : nat :=
  length (List.filter (fun e => match e with SysSetFormat _ _ _ _ => true | _ => false end) l).

Close Scope cam_scope.

(* ================================================================= *)
(** ** FilterPreviewWidget.cpp: the shaders *)

Local Open Scope Q_scope.

(** The [float] values of GLSL and the [qreal] quotients of the aspect
    fit are taken as exact rationals.  What is proved of them below is
    either an identity between two readings of the same expression, or
    uses the order of values and the exact results at 0 and 1 only, which
    rounding to binary32 keeps; identities that hold of rationals alone,
    such as applying a filter twice, are not stated. *)
Record vec2 : Type := mkVec2 { v2_x : Q; v2_y : Q }.
Record vec3 : Type := mkVec3 { v3_r : Q; v3_g : Q; v3_b : Q }.
Record vec4 : Type := mkVec4 { v4_rgb : vec3; v4_a : Q }.

(** The GLSL built-ins the shaders use, componentwise on vectors. *)
Definition dot (a b : vec3) : Q :=
  v3_r a * v3_r b + v3_g a * v3_g b + v3_b a * v3_b b.

Definition splat (q : Q) : vec3 := mkVec3 q q q.

Definition vadd (a b : vec3) : vec3 :=
  mkVec3 (v3_r a + v3_r b) (v3_g a + v3_g b) (v3_b a + v3_b b).

Definition vsub (a b : vec3) : vec3 :=
  mkVec3 (v3_r a - v3_r b) (v3_g a - v3_g b) (v3_b a - v3_b b).

Definition clamp (x minVal maxVal : Q) : Q := Qmin (Qmax x minVal) maxVal.

Definition clamp3 (v : vec3) (minVal maxVal : Q) : vec3 :=
  mkVec3 (clamp (v3_r v) minVal maxVal) (clamp (v3_g v) minVal maxVal)
         (clamp (v3_b v) minVal maxVal).

Definition mix (x y a : Q) : Q := x * (1 - a) + y * a.

Definition mix3 (x y : vec3) (a : Q) : vec3 :=
  mkVec3 (mix (v3_r x) (v3_r y) a) (mix (v3_g x) (v3_g y) a) (mix (v3_b x) (v3_b y) a).

(** [kVertexShaderSource]: [gl_Position.xy] and [v_texCoord]. *)
Definition vertexMain (a_position a_texCoord u_scale : vec2) : vec2 * vec2 :=
  let scaledPos := mkVec2 (v2_x a_position / v2_x u_scale)
                          (v2_y a_position / v2_y u_scale) in
  (scaledPos, a_texCoord).

(** [kFragmentShaderSource] *)
Definition toGrayscale (color : vec3) : vec3 :=
  let gray := dot color (mkVec3 0.299 0.587 0.114) in
  splat gray.

Definition toSepia (color : vec3) : vec3 :=
  let r := dot color (mkVec3 0.393 0.769 0.189) in
  let g := dot color (mkVec3 0.349 0.686 0.168) in
  let b := dot color (mkVec3 0.272 0.534 0.131) in
  mkVec3 r g b.

Definition toWarm (color : vec3) : vec3 :=
  vadd color (mkVec3 0.05 0.03 (-0.02)).

Definition toCool (color : vec3) : vec3 :=
  vadd color (mkVec3 (-0.02) 0.03 0.05).

Definition fragmentTarget (u_filter : Z) (color : vec3) : vec3 :=
  if (u_filter =? 1)%Z then toGrayscale color
  else if (u_filter =? 2)%Z then toSepia color
  else if (u_filter =? 3)%Z then vsub (splat 1) color
  else if (u_filter =? 4)%Z then toWarm color
  else if (u_filter =? 5)%Z then toCool color
  else color.

Definition fragmentMain (u_texture : vec2 -> vec4) (u_filter : Z) (u_strength : Q)
    (v_texCoord : vec2) : vec4 :=
  let src := u_texture (mkVec2 (v2_x v_texCoord) (1 - v2_y v_texCoord)) in
  let color := v4_rgb src in
  let target := fragmentTarget u_filter color in
  let color := mix3 color (clamp3 target 0 1) (clamp u_strength 0 1) in
  mkVec4 color (v4_a src).

(** The quad of [ensureGeometry]: position and texture coordinate of the
    four vertices of the triangle strip. *)
Definition vertexData : list (vec2 * vec2) :=
  [ (mkVec2 (-1) (-1), mkVec2 0 1);
    (mkVec2 1 (-1), mkVec2 1 1);
    (mkVec2 (-1) 1, mkVec2 0 0);
    (mkVec2 1 1, mkVec2 1 0) ].

Definition Qgtb (a b : Q) : bool := negb (Qle_bool a b).

(** Lines 340-349 of [renderToCurrentTarget]: the value of [u_scale], from
    the size returned by [frameAspectSize()] and the target size. *)
Definition aspectScale (frameSize : Q * Q) (targetSize : QSize) : vec2 :=
  let frameAspect := fst frameSize / snd frameSize in
  let targetAspect := inject_Z (sz_width targetSize) / inject_Z (sz_height targetSize) in
  let scale := mkVec2 1 1 in
  if Qgtb frameAspect targetAspect
  then mkVec2 (v2_x scale) (frameAspect / targetAspect)
  else mkVec2 (targetAspect / frameAspect) (v2_y scale).

(** [QSizeF FilterPreviewWidget::frameAspectSize() const] *)
Definition frameAspectSize (m_currentImage : QImage) : Q * Q :=
  if isNull m_currentImage then (16, 9)
  else (inject_Z (img_width m_currentImage), inject_Z (img_height m_currentImage)).

Close Scope Q_scope.

(* ================================================================= *)
(** ** FilterPreviewWidget.cpp: the widget *)

Module FilterType.

(** [enum class FilterType] *)
Inductive t : Type := None | Grayscale | Sepia | Invert | Warm | Cool.

(** [static_cast<int>(type)] *)
Definition toInt (type : t) : Z :=
  match type with
  | None => 0 | Grayscale => 1 | Sepia => 2 | Invert => 3 | Warm => 4 | Cool => 5
  end.

(** [operator==] on the enumeration. *)
Definition eqb (a b : t) : bool := toInt a =? toInt b.

End FilterType.

(** A C++ [float]: IEEE binary32, with its operations. *)
Definition float : Type := spec_float.

Definition fsub (a b : float) : float := SFsub 24 128 a b.
Definition fmul (a b : float) : float := SFmul 24 128 a b.
Definition fabs (a : float) : float := SFabs a.
Definition fltb (a b : float) : bool := SFltb a b.
Definition fleb (a b : float) : bool := SFleb a b.

(** The literals [0.0f], [1.0f] and [100000.f]. *)
Definition f_0 : float := S754_zero false.
Definition f_1 : float := S754_finite false 8388608 (-23).
Definition f_100000 : float := S754_finite false 12800000 (-7).

(** [qMin], [qMax], [qBound] and [qFuzzyCompare(float, float)] of Qt. *)
Definition qMin (a b : float) : float := if fltb a b then a else b.
Definition qMax (a b : float) : float := if fltb a b then b else a.
Definition qBound (min val max : float) : float := qMax min (qMin max val).
Definition qFuzzyCompare (p1 p2 : float) : bool :=
  fleb (fmul (fabs (fsub p1 p2)) f_100000) (qMin (fabs p1) (fabs p2)).

(** A [QVideoFrame]: whether it is valid and what [toImage()] returns. *)
Record QVideoFrame : Type := mkVideoFrame {
  vf_isValid : bool;
  vf_toImage : QImage
}.

(** The default-constructed, null [QImage]. *)
Definition nullImage : QImage := mkImage 0 0 Format_Invalid 0 [].

(** A [QOpenGLTexture] object: whether storage was created, and its size. *)
Record Texture : Type := mkTexture {
  tex_isCreated : bool;
  tex_width : Z;
  tex_height : Z
}.

(** The members of [FilterPreviewWidget].  [m_program] tells whether the
    pointer holds a linked program; the vertex buffer and vertex array are
    created and destroyed together with [m_geometryInitialized];
    [updateRequests] counts the calls of [QWidget::update()]. *)
Record Widget : Type := mkWidget {
  m_currentImage : QImage;
  m_textureDirty : bool;
  m_emitPending : bool;
  m_filterType : FilterType.t;
  m_filterStrength : float;
  m_program : bool;
  m_texture : option Texture;
  m_framebuffer : option QSize;
  m_geometryInitialized : bool;
  updateRequests : nat
}.

(** The constructor. *)
Definition newWidget : Widget :=
  mkWidget nullImage false false FilterType.None f_1 false None None false 0.

(** What the OpenGL context and the window system answer during one call:
    whether linking the program succeeds, whether a new framebuffer object
    is valid, the size of the widget, and, for the pixel ratio of the
    widget's screen, the size [(QSizeF(size) * devicePixelRatioF()).toSize()]
    that Qt computes from a size. *)
Record GLEnv : Type := mkGLEnv {
  gl_linkOk : bool;
  gl_framebufferOk : bool;
  gl_widgetSize : QSize;
  gl_physicalSize : QSize -> QSize
}.

(** [(QSizeF(size) * ratio).toSize()] for a whole pixel ratio: both
    products are whole numbers, which the rounding of [toSize()] keeps. *)
Definition scaledSize (ratio : Z) (size : QSize) : QSize :=
  mkSize (sz_width size * ratio) (sz_height size * ratio).

(** One draw of the quad: the uniforms, and the size given to
    [glViewport(0, 0, width, height)] before it. *)
Record DrawCall : Type := mkDrawCall {
  dc_filter : Z;
  dc_strength : float;
  dc_scale : vec2;
  dc_viewport : QSize
}.

(** What a call does to the outside: a draw into the offscreen target or
    onto the widget, and the signal [processedFrameReady] with the size of
    the frame read back and the input image it was rendered from. *)
Inductive Effect : Type :=
  | DrawOffscreen (size : QSize) (call : DrawCall)
  | DrawOnScreen (call : DrawCall)
  | ProcessedFrameReady (size : QSize) (source : QImage).

Definition with_image (image : QImage) (w : Widget) : Widget :=
  mkWidget image (m_textureDirty w) (m_emitPending w) (m_filterType w)
           (m_filterStrength w) (m_program w) (m_texture w) (m_framebuffer w)
           (m_geometryInitialized w) (updateRequests w).

Definition with_textureDirty (b : bool) (w : Widget) : Widget :=
  mkWidget (m_currentImage w) b (m_emitPending w) (m_filterType w)
           (m_filterStrength w) (m_program w) (m_texture w) (m_framebuffer w)
           (m_geometryInitialized w) (updateRequests w).

Definition with_emitPending (b : bool) (w : Widget) : Widget :=
  mkWidget (m_currentImage w) (m_textureDirty w) b (m_filterType w)
           (m_filterStrength w) (m_program w) (m_texture w) (m_framebuffer w)
           (m_geometryInitialized w) (updateRequests w).

Definition with_filterType (t : FilterType.t) (w : Widget) : Widget :=
  mkWidget (m_currentImage w) (m_textureDirty w) (m_emitPending w) t
           (m_filterStrength w) (m_program w) (m_texture w) (m_framebuffer w)
           (m_geometryInitialized w) (updateRequests w).

Definition with_filterStrength (s : float) (w : Widget) : Widget :=
  mkWidget (m_currentImage w) (m_textureDirty w) (m_emitPending w) (m_filterType w)
           s (m_program w) (m_texture w) (m_framebuffer w)
           (m_geometryInitialized w) (updateRequests w).

Definition with_program (b : bool) (w : Widget) : Widget :=
  mkWidget (m_currentImage w) (m_textureDirty w) (m_emitPending w) (m_filterType w)
           (m_filterStrength w) b (m_texture w) (m_framebuffer w)
           (m_geometryInitialized w) (updateRequests w).

Definition with_texture (t : option Texture) (w : Widget) : Widget :=
  mkWidget (m_currentImage w) (m_textureDirty w) (m_emitPending w) (m_filterType w)
           (m_filterStrength w) (m_program w) t (m_framebuffer w)
           (m_geometryInitialized w) (updateRequests w).

Definition with_framebuffer (f : option QSize) (w : Widget) : Widget :=
  mkWidget (m_currentImage w) (m_textureDirty w) (m_emitPending w) (m_filterType w)
           (m_filterStrength w) (m_program w) (m_texture w) f
           (m_geometryInitialized w) (updateRequests w).

Definition with_geometryInitialized (b : bool) (w : Widget) : Widget :=
  mkWidget (m_currentImage w) (m_textureDirty w) (m_emitPending w) (m_filterType w)
           (m_filterStrength w) (m_program w) (m_texture w) (m_framebuffer w)
           b (updateRequests w).

(** [QWidget::update()] *)
Definition requestUpdate (w : Widget) : Widget :=
  mkWidget (m_currentImage w) (m_textureDirty w) (m_emitPending w) (m_filterType w)
           (m_filterStrength w) (m_program w) (m_texture w) (m_framebuffer w)
           (m_geometryInitialized w) (S (updateRequests w)).

(** [void FilterPreviewWidget::setFilter(FilterType type)] *)
Definition setFilter (type : FilterType.t) (w : Widget) : Widget :=
  if FilterType.eqb (m_filterType w) type then w
  else requestUpdate (with_filterType type w).

(** [void FilterPreviewWidget::setFilterStrength(float strength)] *)
Definition setFilterStrength (strength : float) (w : Widget) : Widget :=
  let clamped := qBound f_0 strength f_1 in
  if qFuzzyCompare clamped (m_filterStrength w) then w
  else requestUpdate (with_filterStrength clamped w).

(** [void FilterPreviewWidget::updateVideoFrame(const QVideoFrame &frame)] *)
Definition updateVideoFrame (qt : QtImaging) (frame : QVideoFrame) (w : Widget)
    : Widget :=
  if negb (vf_isValid frame) then w
  else
    let image := vf_toImage frame in
    if isNull image then w
    else
      let image :=
        if negb (format_eqb (img_format image) Format_RGBA8888)
        then convertToFormat qt image Format_RGBA8888
        else image in
      requestUpdate
        (with_emitPending true (with_textureDirty true (with_image image w))).

(** [void FilterPreviewWidget::ensureProgram()] *)
Definition ensureProgram (env : GLEnv) (w : Widget) : Widget :=
  if m_program w then w
  else if negb (gl_linkOk env) then with_program false w
  else with_program true w.

(** [void FilterPreviewWidget::ensureGeometry()] *)
Definition ensureGeometry (w : Widget) : Widget :=
  if m_geometryInitialized w then w else with_geometryInitialized true w.

(** [void FilterPreviewWidget::ensureFramebuffer(const QSize &size)] *)
Definition ensureFramebuffer (env : GLEnv) (size : QSize) (w : Widget) : Widget :=
  if size_isEmpty size then with_framebuffer None w
  else
    match m_framebuffer w with
    | Some current =>
        if size_eqb current size then w
        else if negb (gl_framebufferOk env) then with_framebuffer None w
        else with_framebuffer (Some size) w
    | None =>
        if negb (gl_framebufferOk env) then with_framebuffer None w
        else with_framebuffer (Some size) w
    end.

(** [void FilterPreviewWidget::uploadTextureIfNeeded()] *)
Definition uploadTextureIfNeeded (w : Widget) : Widget :=
  if negb (m_textureDirty w) || isNull (m_currentImage w) then w
  else
    let frameSize := img_size (m_currentImage w) in
    let texture :=
      match m_texture w with
      | Some texture => texture
      | None => mkTexture false 0 0
      end in
    let texture :=
      if negb (tex_isCreated texture)
         || negb (tex_width texture =? sz_width frameSize)
         || negb (tex_height texture =? sz_height frameSize)
      then mkTexture true (sz_width frameSize) (sz_height frameSize)
      else texture in
    with_textureDirty false (with_texture (Some texture) w).

Definition isSome {A : Type} (o : option A) : bool :=
  match o with Some _ => true | None => false end.

(** [void FilterPreviewWidget::renderToCurrentTarget(const QSize &)]: the
    draw it issues, if any. *)
Definition renderToCurrentTarget (env : GLEnv) (targetSize : QSize) (w : Widget)
    : option DrawCall :=
  if negb (m_program w) || negb (isSome (m_texture w)) then None
  else
    let physicalSize := gl_physicalSize env targetSize in
    let frameSize := frameAspectSize (m_currentImage w) in
    Some (mkDrawCall (FilterType.toInt (m_filterType w)) (m_filterStrength w)
                     (aspectScale frameSize targetSize) physicalSize).

Definition drawn {A : Type} (f : DrawCall -> A) (call : option DrawCall) : list A :=
  match call with Some c => [f c] | None => [] end.

(** [void FilterPreviewWidget::paintGL()] *)
Definition paintGL (env : GLEnv) (w : Widget) : Widget * list Effect :=
  if isNull (m_currentImage w) then (w, [])
  else
    let w := ensureProgram env w in
    let w := ensureGeometry w in
    let w := uploadTextureIfNeeded w in
    if negb (m_program w) || negb (isSome (m_texture w)) then (w, [])
    else
      let frameSize := img_size (m_currentImage w) in
      let w := ensureFramebuffer env frameSize w in
      let '(w, offscreen) :=
        if m_emitPending w && isSome (m_framebuffer w) then
          (with_emitPending false w,
           drawn (DrawOffscreen frameSize) (renderToCurrentTarget env frameSize w)
           ++ [ProcessedFrameReady frameSize (m_currentImage w)])
        else (w, []) in
      (w, offscreen
          ++ drawn DrawOnScreen (renderToCurrentTarget env (gl_widgetSize env) w)).

(** [void FilterPreviewWidget::cleanupGLResources()] *)
Definition cleanupGLResources (w : Widget) : Widget :=
  with_geometryInitialized false
    (with_program false (with_framebuffer None (with_texture None w))).

(** [void FilterPreviewWidget::initializeGL()] *)
Definition initializeGL (env : GLEnv) (w : Widget) : Widget :=
  ensureGeometry (ensureProgram env (cleanupGLResources w)).

(** [void FilterPreviewWidget::handleContextAboutToBeDestroyed()], with
    the answer of [isValid()]. *)
Definition handleContextAboutToBeDestroyed (isValid : bool) (w : Widget) : Widget :=
  if negb isValid then w else cleanupGLResources w.

(** The calls the framework and the application make on the widget. *)
Inductive Call : Type :=
  | CallSetFilter (type : FilterType.t)
  | CallSetFilterStrength (strength : float)
  | CallUpdateVideoFrame (frame : QVideoFrame)
  | CallInitializeGL (env : GLEnv)
  | CallResizeGL (width height : Z)
  | CallPaintGL (env : GLEnv)
  | CallContextAboutToBeDestroyed (isValid : bool).

Definition step (qt : QtImaging) (c : Call) (w : Widget) : Widget * list Effect :=
  match c with
  | CallSetFilter type => (setFilter type w, [])
  | CallSetFilterStrength strength => (setFilterStrength strength w, [])
  | CallUpdateVideoFrame frame => (updateVideoFrame qt frame w, [])
  | CallInitializeGL env => (initializeGL env w, [])
  | CallResizeGL _ _ => (w, [])
  | CallPaintGL env => paintGL env w
  | CallContextAboutToBeDestroyed isValid => (handleContextAboutToBeDestroyed isValid w, [])
  end.

(** A sequence of calls, with everything it emits and draws. *)
Fixpoint run (qt : QtImaging) (calls : list Call) (w : Widget) : Widget * list Effect :=
  match calls with
  | [] => (w, [])
  | c :: rest =>
      let '(w1, out1) := step qt c w in
      let '(w2, out2) := run qt rest w1 in
      (w2, out1 ++ out2)
  end.

(** The emissions of [processedFrameReady] among the effects. *)
Definition emissions (out : list Effect) : list (QSize * QImage) :=
  flat_map (fun e => match e with
                     | ProcessedFrameReady size source => [(size, source)]
                     | _ => []
                     end) out.

(* ================================================================= *)
(** ** Test frames and reference formulas of the conversion *)

(** A 3x2 frame (scan lines padded to 12 bytes) and a 1x2 frame. *)
Definition oddFrame3x2 : QImage :=
  rgbImage 3 2 3 [ [(255, 0, 0); (0, 255, 0); (0, 0, 255)];
                   [(10, 20, 30); (200, 100, 50); (1, 2, 3)] ].

Definition oddFrame1x2 : QImage :=
  rgbImage 1 2 1 [ [(255, 0, 0)]; [(0, 0, 255)] ].

(** A 2x1 frame: a black pixel next to (0, 0, 3). *)
Definition pairFrame2x1 : QImage :=
  rgbImage 2 1 2 [ [(0, 0, 0); (0, 0, 3)] ].

(** The alternative the conversion does not implement: the chroma of a
    pair from the average of the two pixels' weighted sums, rounded once. *)
Definition singleStepU (R0 G0 B0 R1 G1 B1 : Z) : Z :=
  clampByte ((((-38 * R0 - 74 * G0 + 112 * B0) + (-38 * R1 - 74 * G1 + 112 * B1)) / 2
              + 128) / 2 ^ 8 + 128).


(* ================================================================= *)
(** ** A device whose first write is short *)

Definition isWrite (e : Event) : bool :=
  match e with SysWrite _ _ _ => true | _ => false end.

(** Every [open] answers descriptor 3, every format request succeeds, the
    first [write] takes two bytes and every later one the whole buffer. *)
Definition shortFirstWrite : Kernel :=
  mkKernel (fun _ _ => 3)
           (fun _ _ _ _ => true)
           (fun past _ data => if existsb isWrite past then Z.of_nat (length data) else 2).

(** Qt image operations that return their argument; the frames below are
    RGB888 and no resolution is forced, so none of them is called. *)
Definition qtIdentity : QtImaging :=
  mkQtImaging (fun image _ => image) (fun image _ _ => image) (fun image _ _ _ _ => image).

(** A streamer that was enabled and then received [pairFrame2x1]. *)
Definition enabledSession : Session :=
  snd (setEnabled true (mkSession newStreamer [])).

Definition afterShortWrite : Session :=
  snd (onProcessedFrameReady qtIdentity shortFirstWrite pairFrame2x1 enabledSession).


(* ================================================================= *)
(** ** Reference description of the fragment stage and of a frame's round *)

Local Open Scope Q_scope.

(** The target colour per filter kind, as the design lists them. *)
Definition filterTarget (kind : FilterType.t) (color : vec3) : vec3 :=
  match kind with
  | FilterType.None => color
  | FilterType.Grayscale =>
      let luma := 0.299 * v3_r color + 0.587 * v3_g color + 0.114 * v3_b color in
      mkVec3 luma luma luma
  | FilterType.Sepia =>
      mkVec3 (0.393 * v3_r color + 0.769 * v3_g color + 0.189 * v3_b color)
             (0.349 * v3_r color + 0.686 * v3_g color + 0.168 * v3_b color)
             (0.272 * v3_r color + 0.534 * v3_g color + 0.131 * v3_b color)
  | FilterType.Invert => mkVec3 (1 - v3_r color) (1 - v3_g color) (1 - v3_b color)
  | FilterType.Warm =>
      mkVec3 (v3_r color + 0.05) (v3_g color + 0.03) (v3_b color + -0.02)
  | FilterType.Cool =>
      mkVec3 (v3_r color + -0.02) (v3_g color + 0.03) (v3_b color + 0.05)
  end.

(** Equality of colours as rational numbers. *)
Definition veq3 (a b : vec3) : Prop :=
  v3_r a == v3_r b /\ v3_g a == v3_g b /\ v3_b a == v3_b b.

Close Scope Q_scope.

(** The image [updateVideoFrame] stores for a frame, and whether it
    stores one: the frame is valid and neither [toImage()] nor the
    conversion to RGBA8888 returns a null image. *)
Definition storedImage (qt : QtImaging) (frame : QVideoFrame) : QImage :=
  let image := vf_toImage frame in
  if negb (format_eqb (img_format image) Format_RGBA8888)
  then convertToFormat qt image Format_RGBA8888
  else image.

Definition accepted (qt : QtImaging) (frame : QVideoFrame) : bool :=
  vf_isValid frame && negb (isNull (vf_toImage frame))
  && negb (isNull (storedImage qt frame)).

(** Between two arrivals in normal operation: paint passes and changes of
    the filter, no new frame and no loss of the OpenGL context. *)
Definition betweenArrivals (c : Call) : bool :=
  match c with
  | CallSetFilter _ | CallSetFilterStrength _ | CallResizeGL _ _ | CallPaintGL _ => true
  | CallUpdateVideoFrame _ | CallInitializeGL _ | CallContextAboutToBeDestroyed _ => false
  end.

(** A paint pass during which the program links and the offscreen target
    can be allocated, so that the pass can render and read back. *)
Definition processingPass (c : Call) : bool :=
  match c with
  | CallPaintGL env => gl_linkOk env && gl_framebufferOk env
  | _ => false
  end.

(** One input frame with the calls that follow it before the next frame. *)
Definition Round : Type := (QVideoFrame * list Call)%type.

Definition roundCalls (r : Round) : list Call :=
  CallUpdateVideoFrame (fst r) :: snd r.

(** The frame is accepted, and it is fully processed before the next one:
    among the calls that follow there is a processing pass. *)
Definition processedRound (qt : QtImaging) (r : Round) : Prop :=
  accepted qt (fst r) = true /\
  forallb betweenArrivals (snd r) = true /\
  existsb processingPass (snd r) = true.


(** The macropixel of two red pixels. *)
Definition yuyvRed : list byte := map byte.of_Z [82; 90; 82; 240].

(** A [float] of the unit interval: [0.0f <= x] and [x <= 1.0f]. *)
Definition inUnitInterval (x : float) : Prop :=
  fleb f_0 x = true /\ fleb x f_1 = true.

(** The strength stored in a widget is a value of the unit interval. *)
Definition strengthClamped (w : Widget) : Prop :=
  inUnitInterval (m_filterStrength w).

(** A frame was stored and its processed copy is still owed: the image is
    [img], [m_emitPending] is set, and the texture is either due for
    upload or present. *)
Definition pendingPhase (img : QImage) (w : Widget) : Prop :=
  m_currentImage w = img /\ m_emitPending w = true /\
  (m_textureDirty w = true \/ isSome (m_texture w) = true).

(** Two frames for a run of the widget: the second paint pass of the
    first frame fails to link the program, and both frames see extra
    passes. *)
Definition rgbaFrame (width height : Z) : QVideoFrame :=
  mkVideoFrame true
    (mkImage width height Format_RGBA8888 (4 * width)
             (replicate (Z.to_nat (4 * width * height)) (byte.of_Z 255))).

Definition passWith (linkOk framebufferOk : bool) : Call :=
  CallPaintGL (mkGLEnv linkOk framebufferOk (mkSize 640 480) (scaledSize 1)).

(** A screen of pixel ratio 2, as high-density displays have: program and
    framebuffer object succeed and the widget measures 640x480. *)
Definition hiDpiEnv : GLEnv := mkGLEnv true true (mkSize 640 480) (scaledSize 2).

Definition twoRounds : list Round :=
  [ (rgbaFrame 4 2, [passWith false true; passWith true true; passWith true true;
                     CallResizeGL 800 600; passWith true false]);
    (rgbaFrame 2 2, [CallSetFilter FilterType.Sepia; passWith true true;
                     passWith true true]) ].


(* ================================================================= *)
(** ** Definitions for the further properties *)

Local Open Scope Q_scope.

(** A colour whose three channels lie in [0, 1], as every texel of an
    RGBA8 texture does. *)
Definition unitColor (c : vec3) : Prop :=
  0 <= v3_r c <= 1 /\ 0 <= v3_g c <= 1 /\ 0 <= v3_b c <= 1.

(** The viewport transformation of OpenGL after
    [glViewport(0, 0, width, height)]: the window position, in pixels from
    the lower left corner of the render target, of a position in
    normalized device coordinates. *)
Definition windowPosition (viewport : QSize) (position : vec2) : Q * Q :=
  ((v2_x position + 1) * (inject_Z (sz_width viewport) / 2),
   (v2_y position + 1) * (inject_Z (sz_height viewport) / 2)).

(** A window position lies on a render target of the given size in
    pixels. *)
Definition onTarget (target : QSize) (p : Q * Q) : Prop :=
  (0 <= fst p <= inject_Z (sz_width target)) /\
  (0 <= snd p <= inject_Z (sz_height target)).

Close Scope Q_scope.


(** Whether [updateVideoFrame] stores an image for the frame (and sets
    both flags): the frame is valid and [toImage()] is not null. *)
Definition storesFrame (frame : QVideoFrame) : bool :=
  vf_isValid frame && negb (isNull (vf_toImage frame)).

(** The number of frames stored by a sequence of calls. *)
Definition arrivals (calls : list Call) : nat :=
  length (List.filter (fun c => match c with
                                | CallUpdateVideoFrame frame => storesFrame frame
                                | _ => false
                                end) calls).

(** The processed copies still owed: one while [m_emitPending] is set. *)
Definition owed (w : Widget) : nat := if m_emitPending w then 1%nat else 0%nat.

(** The draws among the effects, offscreen and on screen. *)
Definition drawCalls (out : list Effect) : list DrawCall :=
  flat_map (fun e => match e with
                     | DrawOffscreen _ call | DrawOnScreen call => [call]
                     | ProcessedFrameReady _ _ => []
                     end) out.

(** The texture, once uploaded, is created with the size of the image. *)
Definition textureMatchesImage (w : Widget) : Prop :=
  m_textureDirty w = false ->
  forall t, m_texture w = Some t ->
            t = mkTexture true (img_width (m_currentImage w))
                          (img_height (m_currentImage w)).

(** A widget just after a frame was stored, rendered and emitted. *)
Definition widgetAfterFirstFrame : Widget :=
  fst (run qtIdentity [CallUpdateVideoFrame (rgbaFrame 4 2); passWith true true]
           newWidget).


(** The images stored by a sequence of calls, in order. *)
Definition deliveredImages (qt : QtImaging) (calls : list Call) : list QImage :=
  flat_map (fun c => match c with
                     | CallUpdateVideoFrame frame =>
                         if storesFrame frame then [storedImage qt frame] else []
                     | _ => []
                     end) calls.


(* ================================================================= *)
(** ** The rest of the streamer's interface, and its use of descriptors *)

Local Open Scope cam_scope.

Definition set_devicePath (path : string) (c : Streamer) : Streamer :=
  mkStreamer (m_fd c) path (m_enabled c) (m_deviceConfigured c)
             (m_frameWidth c) (m_frameHeight c) (m_forcedResolution c).

(** [QString::isEmpty()] *)
Definition isEmpty (s : string) : bool :=
  match s with EmptyString => true | String _ _ => false end.

(** [void VirtualCameraStreamer::setDevicePath(const QString &path)];
    [trimmed] is [QString::trimmed()]. *)
Definition setDevicePath (trimmed : string -> string) (path : string) : Cam unit :=
  c <- this ;;
  let normalized :=
    if isEmpty (trimmed path) then kDefaultDevicePath else trimmed path in
  if String.eqb normalized (m_devicePath c) then ret tt
  else
    update (set_devicePath normalized) ;;
    update (set_deviceConfigured false) ;;
    if negb (m_fd c =? -1) then closeDevice else ret tt.

(** The public calls of the streamer. *)
Inductive StreamerCall : Type :=
  | DoSetDevicePath (path : string)
  | DoSetEnabled (enabled : bool)
  | DoSetForcedResolution (resolution : QSize)
  | DoProcessedFrame (frame : QImage).

Definition perform (trimmed : string -> string) (qt : QtImaging) (k : Kernel)
    (call : StreamerCall) : Cam unit :=
  match call with
  | DoSetDevicePath path => setDevicePath trimmed path
  | DoSetEnabled enabled => setEnabled enabled
  | DoSetForcedResolution resolution => setForcedResolution resolution
  | DoProcessedFrame frame => onProcessedFrameReady qt k frame
  end.

(** A sequence of public calls. *)
Fixpoint drive (trimmed : string -> string) (qt : QtImaging) (k : Kernel)
    (calls : list StreamerCall) (s : Session) : Session :=
  match calls with
  | [] => s
  | call :: rest => drive trimmed qt k rest (snd (perform trimmed qt k call s))
  end.

Close Scope cam_scope.

(** The discipline of a single descriptor, checked along a history.
    [held] is the descriptor in hand, if any.  An [open] is allowed with
    no descriptor in hand only and hands one over unless it answers -1; a
    [close], a format request and a [write] are allowed on the descriptor
    in hand only.  [None] reports a breach. *)
Definition trackEvent (held : option Z) (e : Event) : option (option Z) :=
  match e, held with
  | SysOpen _ fd, None => Some (if fd =? -1 then None else Some fd)
  | SysOpen _ _, Some _ => None
  | SysClose fd, Some h => if fd =? h then Some None else None
  | SysSetFormat fd _ _ _, Some h => if fd =? h then Some held else None
  | SysWrite fd _ _, Some h => if fd =? h then Some held else None
  | SysClose _, None | SysSetFormat _ _ _ _, None | SysWrite _ _ _, None => None
  | ErrorOccurred _, _ => Some held
  end.

Fixpoint trackAll (held : option Z) (events : list Event) : option (option Z) :=
  match events with
  | [] => Some held
  | e :: rest =>
      match trackEvent held e with
      | Some held' => trackAll held' rest
      | None => None
      end
  end.

(** The descriptor the streamer believes it holds. *)
Definition heldBy (c : Streamer) : option Z :=
  if m_fd c =? -1 then None else Some (m_fd c).

(** The history respects the discipline and ends with the descriptor the
    streamer holds; a closed streamer is not configured and records the
    size 0x0; the device path is not empty. *)
Definition sessionOk (s : Session) : Prop :=
  trackAll None (history s) = Some (heldBy (cam s)) /\
  (m_fd (cam s) = -1 ->
   m_deviceConfigured (cam s) = false /\
   m_frameWidth (cam s) = 0 /\ m_frameHeight (cam s) = 0) /\
  m_devicePath (cam s) <> EmptyString.

(** A kernel on which [open] fails. *)
Definition noDevice : Kernel :=
  mkKernel (fun _ _ => -1) (fun _ _ _ _ => true)
           (fun _ _ data => Z.of_nat (length data)).

(** A kernel on which everything succeeds, and one that refuses the
    format. *)
Definition healthyDevice : Kernel :=
  mkKernel (fun _ _ => 3) (fun _ _ _ _ => true)
           (fun _ _ data => Z.of_nat (length data)).

Definition refusesFormat : Kernel :=
  mkKernel (fun _ _ => 3) (fun _ _ _ _ => false)
           (fun _ _ data => Z.of_nat (length data)).

(** Qt image operations that honour the requested format and size; the
    pixels, which no property below reads, are left out. *)
Definition blankImage (width height : Z) (format : Format) : QImage :=
  mkImage width height format (4 * width) [].

Definition qtResizing : QtImaging :=
  mkQtImaging
    (fun image format => blankImage (img_width image) (img_height image) format)
    (fun image size mode =>
       match mode with
       | KeepAspectRatioByExpanding =>
           blankImage (Z.max (sz_width size) (img_width image))
                      (Z.max (sz_height size) (img_height image)) (img_format image)
       | _ => blankImage (sz_width size) (sz_height size) (img_format image)
       end)
    (fun image _ _ width height => blankImage width height (img_format image)).


(* ================================================================= *)
(** ** The format negotiated on the device *)

(** The size of the buffer [convertRgbToYuyv] fills for a frame of the
    given dimensions: [outBuffer.resize(width * height * 2)]. *)
Definition frameBytes (width height : Z) : Z :=
  Z.of_nat (length (resize [] (width *i height *i 2))).

(** The format negotiated on the descriptor, checked along a history.
    [negotiated] is the frame size last accepted by a format request since
    the descriptor was opened.  A [write] is allowed only once a format is
    negotiated, and only with the bytes of exactly one frame of that size.
    [None] reports a breach. *)
Definition formatEvent (negotiated : option (Z * Z)) (e : Event)
    : option (option (Z * Z)) :=
  match e with
  | SysOpen _ _ | SysClose _ => Some None
  | SysSetFormat _ width height ok => Some (if ok then Some (width, height) else None)
  | SysWrite _ data _ =>
      match negotiated with
      | Some (width, height) =>
          if Z.of_nat (length data) =? frameBytes width height
          then Some negotiated else None
      | None => None
      end
  | ErrorOccurred _ => Some negotiated
  end.

Fixpoint formatAll (negotiated : option (Z * Z)) (events : list Event)
    : option (option (Z * Z)) :=
  match events with
  | [] => Some negotiated
  | e :: rest =>
      match formatEvent negotiated e with
      | Some negotiated' => formatAll negotiated' rest
      | None => None
      end
  end.

(** The format the streamer believes the device has. *)
Definition negotiatedBy (c : Streamer) : option (Z * Z) :=
  if m_deviceConfigured c then Some (m_frameWidth c, m_frameHeight c) else None.

(** The invariant of the session: the descriptor discipline with the
    closed-state facts, and the negotiated format along the history. *)
Definition formatOk (s : Session) : Prop :=
  sessionOk s /\ formatAll None (history s) = Some (negotiatedBy (cam s)).

(** A streamer that was enabled and has sent [pairFrame2x1] to a device on
    which everything succeeds. *)
Definition streamingSession : Session :=
  snd (onProcessedFrameReady qtIdentity healthyDevice pairFrame2x1 enabledSession).


(* ================================================================= *)
(** * Properties *)

(** ** Machine integers and bytes *)

Lemma int_wrap_fits (z : Z) : fits_int z -> int_wrap z = z.
Proof.
  unfold fits_int, INT_MIN, INT_MAX, int_wrap. intros Hz.
  rewrite Z.mod_small; lia.
Qed.

Lemma iadd_fits (a b : Z) : fits_int (a + b) -> a +i b = a + b.
Proof. apply int_wrap_fits. Qed.

Lemma isub_fits (a b : Z) : fits_int (a - b) -> a -i b = a - b.
Proof. apply int_wrap_fits. Qed.

Lemma imul_fits (a b : Z) : fits_int (a * b) -> a *i b = a * b.
Proof. apply int_wrap_fits. Qed.

Lemma fits_int_bounds (z : Z) : -2147483648 <= z <= 2147483647 -> fits_int z.
Proof. unfold fits_int, INT_MIN, INT_MAX. lia. Qed.

(** Removes the wrap of every [int] operation of the goal whose exact
    result is in range, innermost operations first. *)
Ltac unwrap_int :=
  unfold iadd, isub, imul;
  repeat match goal with
         | |- context [int_wrap ?z] =>
             rewrite (int_wrap_fits z) by (apply fits_int_bounds; lia)
         end.

Lemma byte_unsigned_bounds (b : byte) : 0 <= byte.unsigned b <= 255.
Proof. pose proof (byte.unsigned_range b) as H. change (2 ^ 8) with 256 in H. lia. Qed.

Lemma byte_of_Z_small (z : Z) : 0 <= z <= 255 -> byte.unsigned (byte.of_Z z) = z.
Proof.
  intros Hz. rewrite byte.unsigned_of_Z. unfold byte.wrap.
  change (2 ^ 8) with 256. apply Z.mod_small. lia.
Qed.

Lemma clampToByte_unsigned (value : Z) :
  byte.unsigned (clampToByte value) = clampByte value.
Proof.
  unfold clampToByte, clampByte.
  destruct (Z.ltb_spec value 0) as [Hneg | Hnn].
  - rewrite byte_of_Z_small by lia. lia.
  - destruct (value >? 255) eqn:Hgt.
    + apply Z.gtb_lt in Hgt. rewrite byte_of_Z_small by lia. lia.
    + assert (value <= 255) by (rewrite Z.gtb_ltb in Hgt; apply Z.ltb_ge in Hgt; lia).
      rewrite byte_of_Z_small by lia. lia.
Qed.

Lemma clampByte_small (z : Z) : 0 <= z <= 255 -> clampByte z = z.
Proof. unfold clampByte. lia. Qed.

(** ** [rgbToYuv] against the reference formulas *)

Lemma rgbToYuv_y (r g b : byte) :
  byte.unsigned (yuv_y (rgbToYuv r g b))
  = bt601_Y (byte.unsigned r) (byte.unsigned g) (byte.unsigned b).
Proof.
  pose proof (byte_unsigned_bounds r). pose proof (byte_unsigned_bounds g).
  pose proof (byte_unsigned_bounds b).
  unfold rgbToYuv, bt601_Y, ishr; cbn [yuv_y].
  rewrite clampToByte_unsigned, Z.shiftr_div_pow2 by lia.
  change (2 ^ 8) with 256. unwrap_int.
  rewrite int_wrap_fits; [reflexivity|].
  apply fits_int_bounds. Z.div_mod_to_equations. lia.
Qed.

Lemma rgbToYuv_u (r g b : byte) :
  byte.unsigned (yuv_u (rgbToYuv r g b))
  = bt601_U (byte.unsigned r) (byte.unsigned g) (byte.unsigned b).
Proof.
  pose proof (byte_unsigned_bounds r). pose proof (byte_unsigned_bounds g).
  pose proof (byte_unsigned_bounds b).
  unfold rgbToYuv, bt601_U, ishr; cbn [yuv_u].
  rewrite clampToByte_unsigned, Z.shiftr_div_pow2 by lia.
  change (2 ^ 8) with 256. unwrap_int.
  rewrite int_wrap_fits; [reflexivity|].
  apply fits_int_bounds. Z.div_mod_to_equations. lia.
Qed.

Lemma rgbToYuv_v (r g b : byte) :
  byte.unsigned (yuv_v (rgbToYuv r g b))
  = bt601_V (byte.unsigned r) (byte.unsigned g) (byte.unsigned b).
Proof.
  pose proof (byte_unsigned_bounds r). pose proof (byte_unsigned_bounds g).
  pose proof (byte_unsigned_bounds b).
  unfold rgbToYuv, bt601_V, ishr; cbn [yuv_v].
  rewrite clampToByte_unsigned, Z.shiftr_div_pow2 by lia.
  change (2 ^ 8) with 256. unwrap_int.
  rewrite int_wrap_fits; [reflexivity|].
  apply fits_int_bounds. Z.div_mod_to_equations. lia.
Qed.

(** C3. For every byte triple the three components computed by [rgbToYuv]
    are the values of the written BT.601 formulas taken over the exact
    integers (no [int] operation of the code wraps); the solid red 4x2 frame
    converts to Y=82, U=90, V=240 for its pixel and to four macropixels
    [82,90,82,240], sixteen bytes, with no store outside the buffer. *)
Theorem rgbToYuv_bt601_exact :
  (forall r g b : byte,
      byte.unsigned (yuv_y (rgbToYuv r g b))
        = bt601_Y (byte.unsigned r) (byte.unsigned g) (byte.unsigned b) /\
      byte.unsigned (yuv_u (rgbToYuv r g b))
        = bt601_U (byte.unsigned r) (byte.unsigned g) (byte.unsigned b) /\
      byte.unsigned (yuv_v (rgbToYuv r g b))
        = bt601_V (byte.unsigned r) (byte.unsigned g) (byte.unsigned b)) /\
  rgbToYuv (byte.of_Z 255) (byte.of_Z 0) (byte.of_Z 0)
    = mkYuv (byte.of_Z 82) (byte.of_Z 90) (byte.of_Z 240) /\
  convertRgbToYuyv solidRed4x2 []
    = (true, mkOutMem (yuyvRed ++ yuyvRed ++ yuyvRed ++ yuyvRed) []) /\
  length (om_bytes (snd (convertRgbToYuyv solidRed4x2 []))) = 16%nat.
Proof.
  split; [|repeat split; vm_compute; reflexivity].
  intros r g b. auto using rgbToYuv_y, rgbToYuv_u, rgbToYuv_v.
Qed.

(** ** Stores into the output buffer *)

Lemma poke_length (m : OutMem) (i : Z) (v : byte) :
  length (om_bytes (poke m i v)) = length (om_bytes m).
Proof.
  unfold poke. destruct (_ && _); cbn [om_bytes]; [apply length_insert | reflexivity].
Qed.

Lemma poke_in (m : OutMem) (i : Z) (v : byte) :
  0 <= i < Z.of_nat (length (om_bytes m)) ->
  poke m i v = mkOutMem (<[Z.to_nat i := v]> (om_bytes m)) (om_overrun m).
Proof.
  intros Hi. unfold poke.
  destruct (Z.leb_spec 0 i); [|lia].
  destruct (Z.ltb_spec i (Z.of_nat (length (om_bytes m)))); [reflexivity | lia].
Qed.

Lemma poke_out (m : OutMem) (i : Z) (v : byte) :
  Z.of_nat (length (om_bytes m)) <= i ->
  poke m i v = mkOutMem (om_bytes m) (om_overrun m ++ [(i, v)]).
Proof.
  intros Hi. unfold poke.
  destruct (Z.ltb_spec i (Z.of_nat (length (om_bytes m)))); [lia|].
  rewrite andb_false_r. reflexivity.
Qed.

Lemma poke_byteAt_other (m : OutMem) (i j : Z) (v : byte) :
  i <> j -> byteAt (om_bytes (poke m i v)) j = byteAt (om_bytes m) j.
Proof.
  intros Hij. unfold poke, byteAt.
  destruct (Z.ltb_spec j 0); [reflexivity|].
  destruct (Z.leb_spec 0 i); cbn [andb]; [|reflexivity].
  destruct (i <? _); cbn [om_bytes]; [|reflexivity].
  apply list_lookup_insert_ne. lia.
Qed.

Lemma poke_byteAt_same (m : OutMem) (i : Z) (v : byte) :
  0 <= i < Z.of_nat (length (om_bytes m)) ->
  byteAt (om_bytes (poke m i v)) i = Some v.
Proof.
  intros Hi. rewrite poke_in by assumption. unfold byteAt; cbn [om_bytes].
  destruct (Z.ltb_spec i 0); [lia|].
  apply list_lookup_insert_eq. lia.
Qed.

Lemma poke_overrun_in (m : OutMem) (i : Z) (v : byte) :
  0 <= i < Z.of_nat (length (om_bytes m)) ->
  om_overrun (poke m i v) = om_overrun m.
Proof. intros Hi. rewrite poke_in by assumption. reflexivity. Qed.

Lemma poke_overrun_out (m : OutMem) (i : Z) (v : byte) :
  Z.of_nat (length (om_bytes m)) <= i ->
  om_overrun (poke m i v) = om_overrun m ++ [(i, v)].
Proof. intros Hi. rewrite poke_out by assumption. reflexivity. Qed.

Lemma store4_length (m : OutMem) (a : Z) (b0 b1 b2 b3 : byte) :
  length (om_bytes (store4 m a b0 b1 b2 b3)) = length (om_bytes m).
Proof. unfold store4. rewrite !poke_length. reflexivity. Qed.

Lemma store4_other (m : OutMem) (a j : Z) (b0 b1 b2 b3 : byte) :
  j < a \/ a + 3 < j ->
  byteAt (om_bytes (store4 m a b0 b1 b2 b3)) j = byteAt (om_bytes m) j.
Proof.
  intros Hj. unfold store4. rewrite !poke_byteAt_other by lia. reflexivity.
Qed.

(** All four stores land in the buffer. *)
Lemma store4_inside (m : OutMem) (a : Z) (b0 b1 b2 b3 : byte) :
  0 <= a -> a + 3 < Z.of_nat (length (om_bytes m)) ->
  let m' := store4 m a b0 b1 b2 b3 in
  byteAt (om_bytes m') a = Some b0 /\
  byteAt (om_bytes m') (a + 1) = Some b1 /\
  byteAt (om_bytes m') (a + 2) = Some b2 /\
  byteAt (om_bytes m') (a + 3) = Some b3 /\
  om_overrun m' = om_overrun m.
Proof.
  intros Ha Hlen m'. subst m'. unfold store4.
  repeat split.
  - rewrite !poke_byteAt_other by lia. apply poke_byteAt_same. lia.
  - rewrite !poke_byteAt_other by lia. apply poke_byteAt_same.
    rewrite poke_length. lia.
  - rewrite !poke_byteAt_other by lia. apply poke_byteAt_same.
    rewrite !poke_length. lia.
  - apply poke_byteAt_same. rewrite !poke_length. lia.
  - rewrite !poke_overrun_in; rewrite ?poke_length; try lia. reflexivity.
Qed.

(** The buffer ends after the second store: the other two fall behind it. *)
Lemma store4_straddle (m : OutMem) (a : Z) (b0 b1 b2 b3 : byte) :
  0 <= a -> a + 2 = Z.of_nat (length (om_bytes m)) ->
  let m' := store4 m a b0 b1 b2 b3 in
  byteAt (om_bytes m') a = Some b0 /\
  byteAt (om_bytes m') (a + 1) = Some b1 /\
  om_overrun m' = om_overrun m ++ [(a + 2, b2); (a + 3, b3)].
Proof.
  intros Ha Hlen m'. subst m'. unfold store4.
  repeat split.
  - rewrite !poke_byteAt_other by lia. apply poke_byteAt_same. lia.
  - rewrite !poke_byteAt_other by lia. apply poke_byteAt_same.
    rewrite poke_length. lia.
  - rewrite (poke_overrun_out _ (a + 3)) by (rewrite !poke_length; lia).
    rewrite (poke_overrun_out _ (a + 2)) by (rewrite !poke_length; lia).
    rewrite !poke_overrun_in; rewrite ?poke_length; try lia.
    rewrite <- app_assoc. reflexivity.
Qed.

(** ** The loops of [convertRgbToYuyv] *)

Lemma convertPair_store4 (image : QImage) (src rowPtr x : Z) (m : OutMem) :
  0 <= x -> 3 * (x + 1) <= INT_MAX -> 2 * x + 3 <= INT_MAX ->
  let p0 := pixelYuv image (src + 3 * x) in
  let p1 := pixelYuv image (src + 3 * (x + 1)) in
  convertPair image src rowPtr x m
  = store4 m (rowPtr + x * 2) (yuv_y p0) (sharedChroma (yuv_u p0) (yuv_u p1))
      (yuv_y p1) (sharedChroma (yuv_v p0) (yuv_v p1)).
Proof.
  intros Hx H3 H2; cbv zeta; unfold INT_MAX in *.
  unfold convertPair, store4, sharedChroma.
  replace (x +i 1) with (x + 1) by (unwrap_int; reflexivity).
  replace ((x + 1) *i 3) with (3 * (x + 1)) by (unwrap_int; lia).
  replace (x *i 3) with (3 * x) by (unwrap_int; lia).
  replace (x *i 2 +i 0) with (x * 2) by (unwrap_int; lia).
  replace (x *i 2 +i 1) with (x * 2 + 1) by (unwrap_int; lia).
  replace (x *i 2 +i 2) with (x * 2 + 2) by (unwrap_int; lia).
  replace (x *i 2 +i 3) with (x * 2 + 3) by (unwrap_int; lia).
  rewrite !Z.add_assoc. reflexivity.
Qed.

Lemma convertLone_store4 (image : QImage) (src rowPtr x : Z) (m : OutMem) :
  0 <= x -> 3 * x <= INT_MAX -> 2 * x + 3 <= INT_MAX ->
  let p := pixelYuv image (src + 3 * x) in
  convertLone image src rowPtr x m
  = store4 m (rowPtr + x * 2) (yuv_y p) (yuv_u p) (yuv_y p) (yuv_v p).
Proof.
  intros Hx H3 H2; cbv zeta; unfold INT_MAX in *.
  unfold convertLone, store4.
  replace (x *i 3) with (3 * x) by (unwrap_int; lia).
  replace (x *i 2 +i 0) with (x * 2) by (unwrap_int; lia).
  replace (x *i 2 +i 1) with (x * 2 + 1) by (unwrap_int; lia).
  replace (x *i 2 +i 2) with (x * 2 + 2) by (unwrap_int; lia).
  replace (x *i 2 +i 3) with (x * 2 + 3) by (unwrap_int; lia).
  rewrite !Z.add_assoc. reflexivity.
Qed.

Lemma even_step (x x' : Z) :
  Z.even x = true -> Z.even x' = true -> x <= x' -> x' = x \/ x + 2 <= x'.
Proof.
  intros Hx Hx'. apply Z.even_spec in Hx as [k ->]. apply Z.even_spec in Hx' as [k' ->].
  lia.
Qed.

Lemma even_add_2 (x : Z) : Z.even x = true -> Z.even (x + 2) = true.
Proof. intros Hx. rewrite Z.even_add, Hx. reflexivity. Qed.

(** The inner loop from column [x] on: it leaves by its guard with [x] at
    the last even column boundary, writes every pair from [x] on and
    touches nothing before [x] or behind the pairs. *)
Lemma pairLoop_spec (image : QImage) (src base width : Z) (fuel : nat) :
  forall (x : Z) (m : OutMem),
    0 <= base -> 0 <= x <= width -> Z.even x = true ->
    3 * width <= INT_MAX -> 2 * width + 1 <= INT_MAX ->
    base + 2 * width <= Z.of_nat (length (om_bytes m)) ->
    width - x <= Z.of_nat fuel ->
    let r := pairLoop fuel image src base width x m in
    fst r = 2 * (width / 2) /\
    length (om_bytes (snd r)) = length (om_bytes m) /\
    om_overrun (snd r) = om_overrun m /\
    (forall j, j < base + x * 2 \/ base + 2 * (width / 2) * 2 <= j ->
       byteAt (om_bytes (snd r)) j = byteAt (om_bytes m) j) /\
    (forall x', x <= x' -> Z.even x' = true -> x' + 1 < width ->
       let p0 := pixelYuv image (src + 3 * x') in
       let p1 := pixelYuv image (src + 3 * (x' + 1)) in
       byteAt (om_bytes (snd r)) (base + x' * 2) = Some (yuv_y p0) /\
       byteAt (om_bytes (snd r)) (base + x' * 2 + 1)
         = Some (sharedChroma (yuv_u p0) (yuv_u p1)) /\
       byteAt (om_bytes (snd r)) (base + x' * 2 + 2) = Some (yuv_y p1) /\
       byteAt (om_bytes (snd r)) (base + x' * 2 + 3)
         = Some (sharedChroma (yuv_v p0) (yuv_v p1))).
Proof.
  induction fuel as [|fuel IH]; intros x m Hbase Hx Hev H3 H2 Hlen Hfuel;
    cbv zeta; unfold INT_MAX in *.
  - cbn [pairLoop fst snd]. assert (x = width) as -> by lia.
    apply Z.even_spec in Hev as [k ->].
    repeat split; try reflexivity; try lia.
    + Z.div_mod_to_equations. lia.
  - cbn [pairLoop].
    replace (x +i 1) with (x + 1) by (unwrap_int; reflexivity).
    destruct (Z.ltb_spec (x + 1) width) as [Hlt | Hge].
    + replace (x +i 2) with (x + 2) by (unwrap_int; reflexivity).
      rewrite convertPair_store4 by (unfold INT_MAX; lia).
      set (p0 := pixelYuv image (src + 3 * x)).
      set (p1 := pixelYuv image (src + 3 * (x + 1))).
      set (m1 := store4 m _ _ _ _ _).
      assert (Hlen1 : length (om_bytes m1) = length (om_bytes m))
        by apply store4_length.
      destruct (store4_inside m (base + x * 2) (yuv_y p0)
                  (sharedChroma (yuv_u p0) (yuv_u p1)) (yuv_y p1)
                  (sharedChroma (yuv_v p0) (yuv_v p1)))
        as (S0 & S1 & S2 & S3 & Sov); [lia | lia |]. fold m1 in S0, S1, S2, S3, Sov.
      destruct (IH (x + 2) m1) as (Rx & Rlen & Rov & Rout & Rin);
        [lia | lia | apply even_add_2; exact Hev | lia | lia
        | rewrite Hlen1; lia | lia |].
      split; [|split; [|split; [|split]]].
      * exact Rx.
      * rewrite Rlen. exact Hlen1.
      * rewrite Rov. exact Sov.
      * intros j Hj. rewrite Rout by lia. apply store4_other.
        assert (2 * (width / 2) >= x + 2) by
          (apply Z.even_spec in Hev as [k ->]; Z.div_mod_to_equations; lia).
        lia.
      * intros x' Hle Hev' Hlt'. cbv zeta.
        destruct (even_step x x' Hev Hev' Hle) as [-> | Hnext];
          [rewrite !Rout by lia; auto | apply Rin; assumption].
    + cbn [fst snd]. apply Z.even_spec in Hev as [k ->].
      repeat split; try reflexivity; try lia.
      Z.div_mod_to_equations. lia.
Qed.

Lemma rowEncoded_ext (image : QImage) (width y : Z) (l l' : list byte) :
  0 < width -> 0 <= y ->
  (forall j, j < (y + 1) * width * 2 -> byteAt l' j = byteAt l j) ->
  rowEncoded image width l y -> rowEncoded image width l' y.
Proof.
  intros Hw Hy Hsame [Hpairs Hlone]. split.
  - intros x Hx Hev Hlt. cbv zeta.
    destruct (Hpairs x Hx Hev Hlt) as (P0 & P1 & P2 & P3).
    rewrite !Hsame by lia. auto.
  - intros Hodd. cbv zeta. destruct (Hlone Hodd) as (L0 & L1).
    rewrite !Hsame by lia. auto.
Qed.

Lemma odd_half (width : Z) : 2 * (width / 2) < width -> Z.odd width = true.
Proof.
  intros Hlt. apply Z.odd_spec. exists (width / 2).
  Z.div_mod_to_equations. lia.
Qed.

Lemma even_half (width : Z) : width <= 2 * (width / 2) -> Z.odd width = false.
Proof.
  intros Hge. rewrite <- Z.negb_even. apply negb_false_iff, Z.even_spec.
  exists (width / 2). Z.div_mod_to_equations. lia.
Qed.

Lemma row_offsets (width height y : Z) :
  0 < width -> 0 <= y < height ->
  0 <= y * width /\ (y + 1) * width <= width * height.
Proof. intros Hw Hy. split; nia. Qed.

(** One row: the row stands encoded, nothing before it changes, and only
    the last row's left-over column stores behind the buffer. *)
Lemma convertRow_spec (image : QImage) (width height y : Z) (m : OutMem) :
  0 < width -> 0 <= y < height ->
  width * height * 2 <= INT_MAX -> 3 * width <= INT_MAX ->
  Z.of_nat (length (om_bytes m)) = width * height * 2 ->
  let m' := convertRow image width y m in
  length (om_bytes m') = length (om_bytes m) /\
  (forall j, j < y * width * 2 -> byteAt (om_bytes m') j = byteAt (om_bytes m) j) /\
  rowEncoded image width (om_bytes m') y /\
  om_overrun m'
  = om_overrun m ++ (if Z.odd width && (y =? height - 1)
                     then lastRowSpill image width height else []).
Proof.
  intros Hw Hy Hfit H3 Hlen; cbv zeta.
  destruct (row_offsets width height y Hw Hy) as [Hlo Hhi].
  unfold convertRow, INT_MAX in *.
  replace (y *i width *i 2) with (y * width * 2) by (unwrap_int; reflexivity).
  pose proof (pairLoop_spec image (constScanLine image y) (y * width * 2) width
                (Z.to_nat width) 0 m) as Hloop.
  destruct (pairLoop _ _ _ _ _ _ _) as [xf m1].
  destruct Hloop as (Rx & Rlen & Rov & Rout & Rin);
    [lia | lia | reflexivity | unfold INT_MAX; lia | unfold INT_MAX; lia
    | lia | lia |].
  cbn [fst snd] in Rx, Rlen, Rov, Rout, Rin. subst xf.
  destruct (Z.ltb_spec (2 * (width / 2)) width) as [Hodd | Heven].
  - pose proof (odd_half width Hodd) as Hoddb. rewrite Hoddb. cbn [andb].
    assert (Hxf : 2 * (width / 2) = width - 1)
      by (apply Z.odd_spec in Hoddb as [k ->]; Z.div_mod_to_equations; lia).
    rewrite Hxf in *.
    rewrite convertLone_store4 by (unfold INT_MAX; lia).
    set (p := pixelYuv image (constScanLine image y + 3 * (width - 1))).
    set (a := y * width * 2 + (width - 1) * 2).
    assert (Hpairs : forall j, j < a ->
              byteAt (om_bytes (store4 m1 a (yuv_y p) (yuv_u p) (yuv_y p) (yuv_v p))) j
              = byteAt (om_bytes m1) j)
      by (intros j Hj; apply store4_other; lia).
    assert (Henc : forall x, 0 <= x -> Z.even x = true -> x + 1 < width ->
              x * 2 + 3 < (width - 1) * 2).
    { intros x Hx Hev Hlt. apply Z.even_spec in Hev as [k ->].
      apply Z.odd_spec in Hoddb as [k' Hk']. lia. }
    destruct (Z.eqb_spec y (height - 1)) as [Hlast | Hmid].
    + destruct (store4_straddle m1 a (yuv_y p) (yuv_u p) (yuv_y p) (yuv_v p))
        as (S0 & S1 & Sov); [subst a; lia | subst a; lia |].
      split; [|split; [|split; [split|]]].
      * rewrite store4_length. exact Rlen.
      * intros j Hj. rewrite Hpairs by (subst a; lia). apply Rout. lia.
      * intros x Hx Hev Hlt. cbv zeta. specialize (Henc x Hx Hev Hlt).
        destruct (Rin x Hx Hev Hlt) as (P0 & P1 & P2 & P3).
        rewrite !Hpairs by (subst a; lia). unfold rowPixel. auto.
      * intros _. cbv zeta. split; [exact S0 | exact S1].
      * rewrite Sov, Rov. unfold lastRowSpill, rowPixel. subst p y.
        replace (a + 2) with (width * height * 2) by (subst a; lia).
        replace (a + 3) with (width * height * 2 + 1) by (subst a; lia).
        reflexivity.
    + destruct (row_offsets width height (y + 1) Hw) as [_ Hnext]; [lia|].
      destruct (store4_inside m1 a (yuv_y p) (yuv_u p) (yuv_y p) (yuv_v p))
        as (S0 & S1 & _ & _ & Sov); [subst a; lia | subst a; lia |].
      split; [|split; [|split; [split|]]].
      * rewrite store4_length. exact Rlen.
      * intros j Hj. rewrite Hpairs by (subst a; lia). apply Rout. lia.
      * intros x Hx Hev Hlt. cbv zeta. specialize (Henc x Hx Hev Hlt).
        destruct (Rin x Hx Hev Hlt) as (P0 & P1 & P2 & P3).
        rewrite !Hpairs by (subst a; lia). unfold rowPixel. auto.
      * intros _. cbv zeta. split; [exact S0 | exact S1].
      * rewrite Sov, Rov, app_nil_r. reflexivity.
  - rewrite (even_half width Heven). cbn [andb]. rewrite app_nil_r.
    split; [|split; [|split; [split|]]].
    + exact Rlen.
    + intros j Hj. apply Rout. lia.
    + intros x Hx Hev Hlt. cbv zeta. unfold rowPixel. apply Rin; assumption.
    + intros Hodd. rewrite (even_half width Heven) in Hodd. discriminate.
    + exact Rov.
Qed.

(** The outer loop from row [y] on. *)
Lemma rowLoop_spec (image : QImage) (width height : Z) (fuel : nat) :
  forall (y : Z) (m : OutMem),
    0 < width -> 0 <= y <= height ->
    width * height * 2 <= INT_MAX -> 3 * width <= INT_MAX ->
    Z.of_nat (length (om_bytes m)) = width * height * 2 ->
    height - y <= Z.of_nat fuel ->
    let m' := rowLoop fuel image width height y m in
    length (om_bytes m') = length (om_bytes m) /\
    (forall j, j < y * width * 2 -> byteAt (om_bytes m') j = byteAt (om_bytes m) j) /\
    (forall y', y <= y' < height -> rowEncoded image width (om_bytes m') y') /\
    om_overrun m'
    = om_overrun m ++ (if Z.odd width && (y <? height)
                       then lastRowSpill image width height else []).
Proof.
  induction fuel as [|fuel IH]; intros y m Hw Hy Hfit H3 Hlen Hfuel; cbv zeta.
  - cbn [rowLoop]. assert (y = height) as -> by lia.
    rewrite Z.ltb_irrefl, andb_false_r, app_nil_r.
    split; [|split; [|split]]; auto. intros y' Hy'. lia.
  - cbn [rowLoop].
    destruct (Z.ltb_spec y height) as [Hlt | Hge].
    + assert (Hh : height <= 2147483647) by (unfold INT_MAX in Hfit; nia).
      replace (y +i 1) with (y + 1) by (unwrap_int; reflexivity).
      destruct (convertRow_spec image width height y m) as (Clen & Clow & Cenc & Cov);
        [lia | lia | assumption | assumption | assumption |].
      set (m1 := convertRow image width y m) in *.
      destruct (IH (y + 1) m1) as (Rlen & Rlow & Renc & Rov);
        [lia | lia | assumption | assumption | rewrite Clen; assumption | lia |].
      split; [|split; [|split]].
      * rewrite Rlen. exact Clen.
      * intros j Hj. rewrite Rlow by lia. apply Clow. exact Hj.
      * intros y' Hy'. destruct (Z.eq_dec y' y) as [-> | Hne].
        -- apply (rowEncoded_ext image width y (om_bytes m1)); [lia | lia | | exact Cenc].
           intros j Hj. apply Rlow. exact Hj.
        -- apply Renc. lia.
      * rewrite Rov, Cov, <- app_assoc. f_equal.
        destruct (Z.odd width); cbn [andb]; [|reflexivity].
        destruct (Z.eqb_spec y (height - 1)), (Z.ltb_spec (y + 1) height);
          try lia; [apply app_nil_r | reflexivity].
    + assert (y = height) as -> by lia.
      rewrite andb_false_r, app_nil_r.
      split; [|split; [|split]]; auto. intros y' Hy'. lia.
Qed.

Lemma resize_length (buffer : QByteArray) (n : Z) :
  length (resize buffer n) = Z.to_nat n.
Proof.
  unfold resize. rewrite length_app, length_take, length_replicate. lia.
Qed.

(** The whole conversion of an image of positive dimensions whose output
    size fits an [int]. *)
Lemma convertRgbToYuyv_spec (image : QImage) (outBuffer : QByteArray) :
  let width := img_width image in
  let height := img_height image in
  0 < width -> 0 < height ->
  width * height * 2 <= INT_MAX -> 3 * width <= INT_MAX ->
  let r := convertRgbToYuyv image outBuffer in
  fst r = true /\
  Z.of_nat (length (om_bytes (snd r))) = width * height * 2 /\
  (forall y, 0 <= y < height -> rowEncoded image width (om_bytes (snd r)) y) /\
  om_overrun (snd r)
  = if Z.odd width then lastRowSpill image width height else [].
Proof.
  cbv zeta. intros Hw Hh Hfit H3. unfold convertRgbToYuyv.
  destruct (Z.leb_spec (img_width image) 0); [lia|].
  destruct (Z.leb_spec (img_height image) 0); [lia|]. cbn [orb fst snd].
  assert (Hwh : 0 < img_width image * img_height image) by nia.
  replace (img_width image *i img_height image *i 2)
    with (img_width image * img_height image * 2)
    by (unfold INT_MAX in *; unwrap_int; reflexivity).
  set (m0 := mkOutMem _ _).
  assert (Hlen0 : Z.of_nat (length (om_bytes m0))
                  = img_width image * img_height image * 2)
    by (subst m0; cbn [om_bytes]; rewrite resize_length; lia).
  destruct (rowLoop_spec image (img_width image) (img_height image)
              (Z.to_nat (img_height image)) 0 m0) as (Rlen & _ & Renc & Rov);
    [lia | lia | assumption | assumption | assumption | lia |].
  split; [reflexivity|]. split; [rewrite Rlen; exact Hlen0|]. split; [exact Renc|].
  rewrite Rov. subst m0. cbn [om_overrun app].
  destruct (Z.ltb_spec 0 (img_height image)); [|lia].
  rewrite andb_true_r. reflexivity.
Qed.

Lemma pairLoop_length (image : QImage) (src rowPtr width : Z) (fuel : nat) :
  forall (x : Z) (m : OutMem),
    length (om_bytes (snd (pairLoop fuel image src rowPtr width x m)))
    = length (om_bytes m).
Proof.
  induction fuel as [|fuel IH]; intros x m; cbn [pairLoop]; [reflexivity|].
  destruct (_ <? _); [|reflexivity].
  rewrite IH. unfold convertPair. rewrite !poke_length. reflexivity.
Qed.

Lemma convertRow_length (image : QImage) (width y : Z) (m : OutMem) :
  length (om_bytes (convertRow image width y m)) = length (om_bytes m).
Proof.
  unfold convertRow.
  pose proof (pairLoop_length image (constScanLine image y) (y *i width *i 2)
                width (Z.to_nat width) 0 m) as Hlen.
  destruct (pairLoop _ _ _ _ _ _ _) as [x m1]. cbn [snd] in Hlen.
  destruct (_ <? _); [|exact Hlen].
  unfold convertLone. rewrite !poke_length. exact Hlen.
Qed.

Lemma rowLoop_length (image : QImage) (width height : Z) (fuel : nat) :
  forall (y : Z) (m : OutMem),
    length (om_bytes (rowLoop fuel image width height y m)) = length (om_bytes m).
Proof.
  induction fuel as [|fuel IH]; intros y m; cbn [rowLoop]; [reflexivity|].
  destruct (_ <? _); [|reflexivity].
  rewrite IH. apply convertRow_length.
Qed.

Lemma sharedChroma_unsigned (c0 c1 : byte) :
  byte.unsigned (sharedChroma c0 c1) = (byte.unsigned c0 + byte.unsigned c1) / 2.
Proof.
  pose proof (byte_unsigned_bounds c0). pose proof (byte_unsigned_bounds c1).
  unfold sharedChroma, idiv. rewrite clampToByte_unsigned. unwrap_int.
  rewrite Z.quot_div_nonneg by lia.
  apply clampByte_small. Z.div_mod_to_equations. lia.
Qed.

Lemma rgb888_image_bounds (image : QImage) :
  rgb888_image image ->
  0 < img_width image /\ 0 < img_height image /\ 3 * img_width image <= INT_MAX.
Proof. unfold rgb888_image. intros (Hw & Hh & _ & Hline & _). lia. Qed.

(** ** The claims about the conversion *)

(** C4. In the buffer produced for an RGB888 image (whose output size fits
    an [int]), the four bytes of every horizontal pair at an even column
    [x] with [x + 1 < width] are Y0, U, Y1, V in this order, where U and V
    are the integer-division averages of the two pixels' own [rgbToYuv]
    bytes (each rounded and clamped on its own); this is not the single
    rounding of the averaged raw sums: for black next to (0,0,3) the code
    stores U = 128 where the single-step value is 129. *)
Theorem pair_chroma_two_step_average :
  (forall (image : QImage) (outBuffer : QByteArray) (y x : Z),
      rgb888_image image ->
      img_width image * img_height image * 2 <= INT_MAX ->
      0 <= y < img_height image ->
      0 <= x -> Z.even x = true -> x + 1 < img_width image ->
      let out := om_bytes (snd (convertRgbToYuyv image outBuffer)) in
      let p0 := rowPixel image y x in
      let p1 := rowPixel image y (x + 1) in
      let at_ := y * img_width image * 2 + x * 2 in
      exists u v : byte,
        byteAt out at_ = Some (yuv_y p0) /\
        byteAt out (at_ + 1) = Some u /\
        byteAt out (at_ + 2) = Some (yuv_y p1) /\
        byteAt out (at_ + 3) = Some v /\
        byte.unsigned u = (byte.unsigned (yuv_u p0) + byte.unsigned (yuv_u p1)) / 2 /\
        byte.unsigned v = (byte.unsigned (yuv_v p0) + byte.unsigned (yuv_v p1)) / 2) /\
  (byteAt (om_bytes (snd (convertRgbToYuyv pairFrame2x1 []))) 1 = Some (byte.of_Z 128) /\
   singleStepU 0 0 0 0 0 3 = 129).
Proof.
  split; [|split; vm_compute; reflexivity].
  intros image outBuffer y x Himg Hfit Hy Hx Hev Hlt; cbv zeta.
  destruct (rgb888_image_bounds image Himg) as (Hw & Hh & H3).
  destruct (convertRgbToYuyv_spec image outBuffer Hw Hh Hfit H3)
    as (_ & _ & Henc & _).
  destruct (Henc y Hy) as [Hpairs _].
  destruct (Hpairs x Hx Hev Hlt) as (P0 & P1 & P2 & P3).
  exists (sharedChroma (yuv_u (rowPixel image y x)) (yuv_u (rowPixel image y (x + 1)))),
         (sharedChroma (yuv_v (rowPixel image y x)) (yuv_v (rowPixel image y (x + 1)))).
  rewrite !sharedChroma_unsigned. auto 10.
Qed.

Lemma pair_chroma_two_step_average_witness :
  let out := om_bytes (snd (convertRgbToYuyv oddFrame3x2 [])) in
  let p0 := rowPixel oddFrame3x2 1 0 in
  let p1 := rowPixel oddFrame3x2 1 (0 + 1) in
  let at_ := 1 * img_width oddFrame3x2 * 2 + 0 * 2 in
  exists u v : byte,
    byteAt out at_ = Some (yuv_y p0) /\
    byteAt out (at_ + 1) = Some u /\
    byteAt out (at_ + 2) = Some (yuv_y p1) /\
    byteAt out (at_ + 3) = Some v /\
    byte.unsigned u = (byte.unsigned (yuv_u p0) + byte.unsigned (yuv_u p1)) / 2 /\
    byte.unsigned v = (byte.unsigned (yuv_v p0) + byte.unsigned (yuv_v p1)) / 2.
Proof.
  apply (proj1 pair_chroma_two_step_average oddFrame3x2 [] 1 0).
  - unfold rgb888_image, fits_int, INT_MIN, INT_MAX. cbn -[Z.mul Z.lt Z.le].
    repeat split; lia.
  - vm_compute. discriminate.
  - cbn. lia.
  - lia.
  - reflexivity.
  - cbn. lia.
Defined.

(** C5. [convertRgbToYuyv] returns failure exactly when the width or the
    height is not positive, and then leaves the output buffer as it was;
    for positive dimensions (with [width * height * 2] in the range of
    [int]) it returns success and the buffer has exactly
    [width * height * 2] bytes, whatever the parity of the width. *)
Theorem convert_fails_iff_not_positive (image : QImage) (outBuffer : QByteArray) :
  let r := convertRgbToYuyv image outBuffer in
  (fst r = false <-> img_width image <= 0 \/ img_height image <= 0) /\
  (fst r = false -> snd r = mkOutMem outBuffer []) /\
  (0 < img_width image -> 0 < img_height image ->
   img_width image * img_height image * 2 <= INT_MAX ->
   fst r = true /\
   Z.of_nat (length (om_bytes (snd r))) = img_width image * img_height image * 2).
Proof.
  cbv zeta. unfold convertRgbToYuyv.
  destruct (Z.leb_spec (img_width image) 0) as [Hw | Hw]; cbn [orb fst snd].
  { split; [split; auto | split; [reflexivity | intros; lia]]. }
  destruct (Z.leb_spec (img_height image) 0) as [Hh | Hh]; cbn [fst snd].
  { split; [split; auto | split; [reflexivity | intros; lia]]. }
  split; [split; [discriminate | lia] | split; [discriminate|]].
  intros _ _ Hfit. split; [reflexivity|].
  rewrite rowLoop_length. cbn [om_bytes]. rewrite resize_length.
  assert (0 < img_width image * img_height image) by nia.
  replace (img_width image *i img_height image *i 2)
    with (img_width image * img_height image * 2)
    by (unfold INT_MAX in *; unwrap_int; reflexivity).
  lia.
Qed.

Lemma convert_fails_iff_not_positive_witness :
  fst (convertRgbToYuyv oddFrame3x2 []) = true /\
  Z.of_nat (length (om_bytes (snd (convertRgbToYuyv oddFrame3x2 [])))) = 3 * 2 * 2.
Proof.
  apply (proj2 (proj2 (convert_fails_iff_not_positive oddFrame3x2 []))).
  - cbn. lia.
  - cbn. lia.
  - vm_compute. discriminate.
Defined.

Lemma byteAt_beyond (l : list byte) (i : Z) :
  Z.of_nat (length l) <= i -> byteAt l i = None.
Proof.
  intros Hi. unfold byteAt. destruct (i <? 0); [reflexivity|].
  apply lookup_ge_None. lia.
Qed.

(** C6, as the code has it.  For an odd width the row of [width * 2] bytes
    has room for two bytes of the left-over column only: they hold the
    pixel's own Y and U.  The third and fourth store of lines 92-93 (the
    second Y, and V) go to the first two bytes of the following row, where
    that row's own conversion replaces them, and for the last row to the
    two addresses behind the buffer.  No row holds a macropixel of the
    left-over column, and its V is in no byte of the output. *)
Theorem odd_width_column_has_half_macropixel
    (image : QImage) (outBuffer : QByteArray) (y : Z) :
  rgb888_image image ->
  img_width image * img_height image * 2 <= INT_MAX ->
  Z.odd (img_width image) = true ->
  0 <= y < img_height image ->
  let width := img_width image in
  let height := img_height image in
  let r := convertRgbToYuyv image outBuffer in
  let out := om_bytes (snd r) in
  let p := rowPixel image y (width - 1) in
  let at_ := y * width * 2 + (width - 1) * 2 in
  fst r = true /\
  byteAt out at_ = Some (yuv_y p) /\
  byteAt out (at_ + 1) = Some (yuv_u p) /\
  at_ + 2 = (y + 1) * width * 2 /\
  (y + 1 < height -> byteAt out (at_ + 2) = Some (yuv_y (rowPixel image (y + 1) 0))) /\
  (y + 1 = height -> byteAt out (at_ + 2) = None /\ byteAt out (at_ + 3) = None) /\
  om_overrun (snd r)
  = [ (width * height * 2, yuv_y (rowPixel image (height - 1) (width - 1)));
      (width * height * 2 + 1, yuv_v (rowPixel image (height - 1) (width - 1))) ].
Proof.
  intros Himg Hfit Hodd Hy; cbv zeta.
  destruct (rgb888_image_bounds image Himg) as (Hw & Hh & H3).
  destruct (convertRgbToYuyv_spec image outBuffer Hw Hh Hfit H3)
    as (Hok & Hlen & Henc & Hov).
  destruct (Henc y Hy) as [_ Hlone]. destruct (Hlone Hodd) as [L0 L1].
  split; [exact Hok|]. split; [exact L0|]. split; [exact L1|].
  split; [lia|]. split; [|split].
  - intros Hnext.
    destruct (Henc (y + 1)) as [Hpairs' Hlone']; [lia|].
    destruct (Z.eq_dec (img_width image) 1) as [Hone | Hwide].
    + destruct (Hlone' Hodd) as [L0' _]. rewrite Hone in *.
      replace (y * 1 * 2 + (1 - 1) * 2 + 2) with ((y + 1) * 1 * 2 + (1 - 1) * 2) by lia.
      exact L0'.
    + destruct (Hpairs' 0) as (P0 & _); [lia | reflexivity | lia |].
      replace (y * img_width image * 2 + (img_width image - 1) * 2 + 2)
        with ((y + 1) * img_width image * 2 + 0 * 2) by lia.
      exact P0.
  - intros Hlast. assert (Hrow := row_offsets _ _ y Hw Hy).
    split; apply byteAt_beyond; rewrite Hlen; subst; lia.
  - rewrite Hov, Hodd. reflexivity.
Qed.

Lemma odd_width_column_has_half_macropixel_witness :
  let r := convertRgbToYuyv oddFrame3x2 [] in
  let out := om_bytes (snd r) in
  let p := rowPixel oddFrame3x2 0 (3 - 1) in
  let at_ := 0 * 3 * 2 + (3 - 1) * 2 in
  fst r = true /\
  byteAt out at_ = Some (yuv_y p) /\
  byteAt out (at_ + 1) = Some (yuv_u p) /\
  at_ + 2 = (0 + 1) * 3 * 2 /\
  (0 + 1 < 2 -> byteAt out (at_ + 2) = Some (yuv_y (rowPixel oddFrame3x2 (0 + 1) 0))) /\
  (0 + 1 = 2 -> byteAt out (at_ + 2) = None /\ byteAt out (at_ + 3) = None) /\
  om_overrun (snd r)
  = [ (3 * 2 * 2, yuv_y (rowPixel oddFrame3x2 (2 - 1) (3 - 1)));
      (3 * 2 * 2 + 1, yuv_v (rowPixel oddFrame3x2 (2 - 1) (3 - 1))) ].
Proof.
  apply (odd_width_column_has_half_macropixel oddFrame3x2 [] 0).
  - unfold rgb888_image, fits_int, INT_MIN, INT_MAX. cbn -[Z.mul Z.lt Z.le].
    repeat split; lia.
  - vm_compute. discriminate.
  - reflexivity.
  - cbn. lia.
Defined.

(** C10, as the code has it.  On the 1x2 frame whose rows are a red and a
    blue pixel (Y, U, V = 82, 90, 240 and 41, 240, 110) the buffer of four
    bytes is [82, 90, 41, 240]: each row keeps Y and U of its pixel.  The
    byte after row 0's Y and U, where the second luma of its macropixel
    would stand, is the luma 41 of row 1, not 82; the second luma and the
    V of row 1 are stored at indices 4 and 5, behind the buffer. *)
Theorem odd_width_second_luma_not_kept :
  let r := convertRgbToYuyv oddFrame1x2 [] in
  fst r = true /\
  rowPixel oddFrame1x2 0 0 = mkYuv (byte.of_Z 82) (byte.of_Z 90) (byte.of_Z 240) /\
  rowPixel oddFrame1x2 1 0 = mkYuv (byte.of_Z 41) (byte.of_Z 240) (byte.of_Z 110) /\
  om_bytes (snd r) = map byte.of_Z [82; 90; 41; 240] /\
  om_overrun (snd r) = [(4, byte.of_Z 41); (5, byte.of_Z 110)].
Proof. vm_compute. repeat split; reflexivity. Qed.

(** ** The device session *)

Local Open Scope cam_scope.

Lemma closeDevice_closed (s : Session) :
  let c := cam (snd (closeDevice s)) in
  m_fd c = -1 /\ m_deviceConfigured c = false /\
  m_frameWidth c = 0 /\ m_frameHeight c = 0 /\
  m_enabled c = m_enabled (cam s) /\
  effects closeDevice s
  = if m_fd (cam s) =? -1 then [] else [SysClose (m_fd (cam s))].
Proof.
  destruct s as [c past]. unfold effects, closeDevice, bind, this, update, ret,
    sys_close, record; cbn [cam history fst snd].
  destruct (Z.eqb_spec (m_fd c) (-1)) as [Hfd | Hfd];
    cbn [negb cam history fst snd set_fd set_deviceConfigured set_frameSize
         m_fd m_deviceConfigured m_frameWidth m_frameHeight m_enabled].
  - rewrite drop_all. repeat split; auto.
  - rewrite drop_app_length. repeat split; auto.
Qed.

(** Normalises a session after a step of a member function. *)
Ltac cam_simpl :=
  cbn [cam history fst snd negb orb andb
       set_fd set_enabled set_deviceConfigured set_frameSize
       m_fd m_devicePath m_enabled m_deviceConfigured m_frameWidth m_frameHeight];
  repeat rewrite <- app_assoc; cbn [app].

(** What [openDevice] does on a closed session (descriptor -1, recorded
    size 0x0, as the constructor and [closeDevice] leave it) for a frame
    size other than 0x0 when the device opens and accepts the format: it
    opens, closes the descriptor it just got, opens again and sets the
    format once. *)
Lemma openDevice_from_closed (k : Kernel) (s : Session) (width height : Z) :
  let path := m_devicePath (cam s) in
  let fd1 := k_open k (history s) path in
  let fd2 := k_open k (history s ++ [SysOpen path fd1; SysClose fd1]) path in
  m_fd (cam s) = -1 ->
  m_frameWidth (cam s) = 0 -> m_frameHeight (cam s) = 0 ->
  width <> 0 \/ height <> 0 ->
  fd1 <> -1 -> fd2 <> -1 ->
  k_setFormat k (history s ++ [SysOpen path fd1; SysClose fd1; SysOpen path fd2])
    fd2 width height = true ->
  fst (openDevice k width height s) = true /\
  effects (openDevice k width height) s
  = [SysOpen path fd1; SysClose fd1; SysOpen path fd2;
     SysSetFormat fd2 width height true] /\
  let c := cam (snd (openDevice k width height s)) in
  m_fd c = fd2 /\ m_deviceConfigured c = true /\
  m_frameWidth c = width /\ m_frameHeight c = height.
Proof.
  destruct s as [c past]; cbn [cam history].
  intros Hfd Hw Hh Hsize Hfd1 Hfd2 Hfmt.
  assert (Hchanged : negb (width =? m_frameWidth c) || negb (height =? m_frameHeight c)
                     = true).
  { rewrite Hw, Hh.
    destruct (Z.eqb_spec width 0), (Z.eqb_spec height 0); cbn; try reflexivity; lia. }
  apply Z.eqb_neq in Hfd1 as Hfd1b. apply Z.eqb_neq in Hfd2 as Hfd2b.
  unfold effects, openDevice, openDevice_configure, closeDevice, configureFormat,
    bind, this, update, ret, sys_open, sys_close, sys_setFormat, record.
  cam_simpl. rewrite Hfd; cbn [Z.eqb Pos.eqb].
  cam_simpl. rewrite Hfd1b.
  cam_simpl. rewrite Hchanged.
  cam_simpl. rewrite Hfd1b.
  cam_simpl. rewrite Hfd2b.
  cam_simpl. rewrite Hfd2b.
  cam_simpl. rewrite Hfmt.
  cam_simpl. rewrite drop_app_length. auto 10.
Qed.

(** C2, as the code has it.  With a device whose first write is short,
    the first frame ends with the failed write, the error signal and the
    close, and leaves the descriptor at -1 and the configured flag
    cleared.  The next frame then issues two opens (the descriptor of the
    first is closed at once, because the recorded size was reset to 0x0
    and differs from the frame's) and one format request. *)
Theorem recovery_after_short_write_opens_twice :
  let path := kDefaultDevicePath in
  let data := map byte.of_Z [16; 128; 16; 128] in
  effects (onProcessedFrameReady qtIdentity shortFirstWrite pairFrame2x1) enabledSession
  = [SysOpen path 3; SysClose 3; SysOpen path 3; SysSetFormat 3 2 1 true;
     SysWrite 3 data 2; ErrorOccurred FailedToWriteFrame; SysClose 3] /\
  m_fd (cam afterShortWrite) = -1 /\
  m_deviceConfigured (cam afterShortWrite) = false /\
  m_enabled (cam afterShortWrite) = true /\
  effects (onProcessedFrameReady qtIdentity shortFirstWrite pairFrame2x1) afterShortWrite
  = [SysOpen path 3; SysClose 3; SysOpen path 3; SysSetFormat 3 2 1 true;
     SysWrite 3 data 4] /\
  opens (effects (onProcessedFrameReady qtIdentity shortFirstWrite pairFrame2x1)
           afterShortWrite) = 2%nat /\
  formatRequests (effects (onProcessedFrameReady qtIdentity shortFirstWrite pairFrame2x1)
                    afterShortWrite) = 1%nat.
Proof. vm_compute. repeat split; reflexivity. Qed.

Close Scope cam_scope.

(** ** The shaders *)

Local Open Scope Q_scope.

Lemma clamp_below (x lo hi : Q) : x <= lo -> lo <= hi -> clamp x lo hi == lo.
Proof.
  intros Hx Hlo. unfold clamp.
  rewrite (Q.max_r x lo Hx). apply Q.min_l. exact Hlo.
Qed.

Lemma mix_at_zero (x y a : Q) : a == 0 -> mix x y a == x.
Proof. intros Ha. unfold mix. rewrite Ha. ring. Qed.

Lemma fragmentTarget_kind (kind : FilterType.t) (color : vec3) :
  veq3 (fragmentTarget (FilterType.toInt kind) color) (filterTarget kind color).
Proof.
  destruct color as [r g b].
  destruct kind;
    unfold veq3, fragmentTarget, filterTarget, FilterType.toInt,
      toGrayscale, toSepia, toWarm, toCool, vsub, vadd, splat, dot;
    cbn [Z.eqb Pos.eqb v3_r v3_g v3_b]; repeat split; ring.
Qed.

Lemma clamp_eq (x y lo hi : Q) : x == y -> clamp x lo hi == clamp y lo hi.
Proof. intros H. unfold clamp. rewrite H. reflexivity. Qed.

Lemma mix_eq (x y y' a : Q) : y == y' -> mix x y a == mix x y' a.
Proof. intros H. unfold mix. rewrite H. reflexivity. Qed.

(** C8. For every filter kind, source texel and strength, the colour the
    fragment stage writes is [mix] of the source colour and the clamped
    target of that kind by the clamped strength, and the alpha is the
    source alpha; with strength 0 the colour is the source colour. *)
Theorem fragment_is_clamped_blend
    (u_texture : vec2 -> vec4) (kind : FilterType.t) (u_strength : Q)
    (v_texCoord : vec2) :
  let src := u_texture (mkVec2 (v2_x v_texCoord) (1 - v2_y v_texCoord)) in
  let out := fragmentMain u_texture (FilterType.toInt kind) u_strength v_texCoord in
  veq3 (v4_rgb out)
       (mix3 (v4_rgb src) (clamp3 (filterTarget kind (v4_rgb src)) 0 1)
             (clamp u_strength 0 1)) /\
  v4_a out = v4_a src /\
  veq3 (v4_rgb (fragmentMain u_texture (FilterType.toInt kind) 0 v_texCoord))
       (v4_rgb src).
Proof.
  cbv zeta. unfold fragmentMain; cbn [v4_rgb v4_a].
  set (src := u_texture _).
  destruct (fragmentTarget_kind kind (v4_rgb src)) as (Hr & Hg & Hb).
  split; [|split; [reflexivity|]].
  - unfold veq3, mix3, clamp3; cbn [v3_r v3_g v3_b].
    repeat split; apply mix_eq, clamp_eq; assumption.
  - unfold veq3, mix3; cbn [v3_r v3_g v3_b].
    repeat split; apply mix_at_zero; reflexivity.
Qed.

(** The same for every value of the [u_filter] uniform and every strength
    that is not positive. *)
Lemma fragment_strength_not_positive
    (u_texture : vec2 -> vec4) (u_filter : Z) (u_strength : Q) (v_texCoord : vec2) :
  u_strength <= 0 ->
  veq3 (v4_rgb (fragmentMain u_texture u_filter u_strength v_texCoord))
       (v4_rgb (u_texture (mkVec2 (v2_x v_texCoord) (1 - v2_y v_texCoord)))).
Proof.
  intros Hs. unfold fragmentMain, veq3, mix3; cbn [v4_rgb v3_r v3_g v3_b].
  assert (Hc : clamp u_strength 0 1 == 0) by (apply clamp_below; [exact Hs | lra]).
  repeat split; apply mix_at_zero; exact Hc.
Qed.

Lemma Qgtb_true (a b : Q) : Qgtb a b = true <-> b < a.
Proof.
  unfold Qgtb. rewrite negb_true_iff, <- not_true_iff_false, Qle_bool_iff.
  split; [apply Qnot_le_lt | apply Qlt_not_le].
Qed.

Lemma Qgtb_false (a b : Q) : Qgtb a b = false <-> a <= b.
Proof. unfold Qgtb. rewrite negb_false_iff. apply Qle_bool_iff. Qed.

Lemma aspect_positive (width height : Z) :
  (0 < width)%Z -> (0 < height)%Z -> 0 < inject_Z width / inject_Z height.
Proof.
  intros Hw Hh. apply Qlt_shift_div_l.
  - change 0 with (inject_Z 0). rewrite <- Zlt_Qlt. exact Hh.
  - rewrite Qmult_0_l. change 0 with (inject_Z 0). rewrite <- Zlt_Qlt. exact Hw.
Qed.

Lemma quotient_at_least_one (a b : Q) : 0 < b -> b <= a -> 1 <= a / b.
Proof. intros Hb Hab. apply Qle_shift_div_l; [exact Hb | lra]. Qed.

Lemma scaled_position_inside (p s : Q) : 1 <= s -> -1 <= p <= 1 -> -1 <= p / s <= 1.
Proof.
  intros Hs Hp. split.
  - apply Qle_shift_div_l; lra.
  - apply Qle_shift_div_r; lra.
Qed.

(** The scale of the aspect fit, with [qreal] and [float] taken as exact
    rationals.  For positive frame and target sizes the scale set by the
    render pass is (1, frameAspect / targetAspect) when the frame is the
    wider, and (targetAspect / frameAspect, 1) otherwise; it is (1, 1)
    for equal aspects; both factors are at least 1, so the vertex stage,
    dividing by them, keeps every position of the unit quad inside clip
    space, that is inside the viewport of the draw. *)
Theorem aspect_fit_scale (m_currentImage : QImage) (targetSize : QSize) :
  (0 < img_width m_currentImage)%Z -> (0 < img_height m_currentImage)%Z ->
  (0 < sz_width targetSize)%Z -> (0 < sz_height targetSize)%Z ->
  let frameAspect :=
    inject_Z (img_width m_currentImage) / inject_Z (img_height m_currentImage) in
  let targetAspect :=
    inject_Z (sz_width targetSize) / inject_Z (sz_height targetSize) in
  let scale := aspectScale (frameAspectSize m_currentImage) targetSize in
  (targetAspect < frameAspect -> scale = mkVec2 1 (frameAspect / targetAspect)) /\
  (frameAspect <= targetAspect -> scale = mkVec2 (targetAspect / frameAspect) 1) /\
  (frameAspect == targetAspect -> v2_x scale == 1 /\ v2_y scale == 1) /\
  1 <= v2_x scale /\ 1 <= v2_y scale /\
  (forall a_position a_texCoord : vec2,
      -1 <= v2_x a_position <= 1 -> -1 <= v2_y a_position <= 1 ->
      let gl_Position := fst (vertexMain a_position a_texCoord scale) in
      -1 <= v2_x gl_Position <= 1 /\ -1 <= v2_y gl_Position <= 1).
Proof.
  intros Hfw Hfh Htw Hth; cbv zeta.
  pose proof (aspect_positive _ _ Hfw Hfh) as Hfa.
  pose proof (aspect_positive _ _ Htw Hth) as Hta.
  unfold frameAspectSize, isNull.
  destruct (Z.leb_spec (img_width m_currentImage) 0); [lia|].
  destruct (Z.leb_spec (img_height m_currentImage) 0); [lia|]. cbn [orb].
  unfold aspectScale; cbn [fst snd v2_x v2_y].
  set (fa := inject_Z (img_width m_currentImage) / inject_Z (img_height m_currentImage)) in *.
  set (ta := inject_Z (sz_width targetSize) / inject_Z (sz_height targetSize)) in *.
  destruct (Qgtb fa ta) eqn:Hcmp.
  - apply Qgtb_true in Hcmp.
    assert (Hy : 1 <= fa / ta) by (apply quotient_at_least_one; lra).
    cbn [v2_x v2_y].
    split; [reflexivity|]. split; [intros; lra|]. split; [intros; lra|].
    split; [lra|]. split; [exact Hy|].
    intros a_position a_texCoord Hpx Hpy. unfold vertexMain; cbn [fst v2_x v2_y].
    split; apply scaled_position_inside; assumption || lra.
  - apply Qgtb_false in Hcmp.
    assert (Hx : 1 <= ta / fa) by (apply quotient_at_least_one; lra).
    cbn [v2_x v2_y].
    split; [intros; lra|]. split; [reflexivity|].
    split; [|split; [exact Hx | split; [lra|]]].
    + intros Heq. split; [|reflexivity].
      rewrite Heq. apply Qmult_inv_r. lra.
    + intros a_position a_texCoord Hpx Hpy. unfold vertexMain; cbn [fst v2_x v2_y].
      split; apply scaled_position_inside; assumption || lra.
Qed.

Lemma aspect_fit_scale_witness :
  let frame := mkImage 1920 1080 Format_RGBA8888 7680 [] in
  let target := mkSize 640 480 in
  let frameAspect := inject_Z 1920 / inject_Z 1080 in
  let targetAspect := inject_Z 640 / inject_Z 480 in
  let scale := aspectScale (frameAspectSize frame) target in
  (targetAspect < frameAspect -> scale = mkVec2 1 (frameAspect / targetAspect)) /\
  (frameAspect <= targetAspect -> scale = mkVec2 (targetAspect / frameAspect) 1) /\
  (frameAspect == targetAspect -> v2_x scale == 1 /\ v2_y scale == 1) /\
  1 <= v2_x scale /\ 1 <= v2_y scale /\
  (forall a_position a_texCoord : vec2,
      -1 <= v2_x a_position <= 1 -> -1 <= v2_y a_position <= 1 ->
      let gl_Position := fst (vertexMain a_position a_texCoord scale) in
      -1 <= v2_x gl_Position <= 1 /\ -1 <= v2_y gl_Position <= 1).
Proof.
  apply (aspect_fit_scale (mkImage 1920 1080 Format_RGBA8888 7680 []) (mkSize 640 480));
    reflexivity.
Defined.

Lemma window_axis_doubled (p s : Q) (extent : Z) :
  s == 1 -> (0 < extent)%Z -> -1 <= p <= 1 ->
  (0 <= (p / s + 1) * (inject_Z (extent * 2) / 2) <= inject_Z extent) <-> p <= 0.
Proof.
  intros Hs Hextent Hp. rewrite Hs.
  assert (He : 0 < inject_Z extent)
    by (change 0 with (inject_Z 0); rewrite <- Zlt_Qlt; exact Hextent).
  assert (E : (p / 1 + 1) * (inject_Z (extent * 2) / 2) == inject_Z extent + p * inject_Z extent)
    by (rewrite inject_Z_mult; change (inject_Z 2) with 2; field).
  rewrite E. set (e := inject_Z extent) in *. clearbody e.
  split.
  - intros [_ Hhigh]. destruct (Qlt_le_dec 0 p) as [Hpos|]; [|assumption].
    pose proof (Qmult_lt_0_compat _ _ Hpos He). lra.
  - intros Hneg.
    assert (0 <= (p + 1) * e) by (apply Qmult_le_0_compat; lra).
    assert (0 <= (- p) * e) by (apply Qmult_le_0_compat; lra).
    split; [ring_simplify in H; lra | ring_simplify in H0; lra].
Qed.

(** C7. The scale is computed as the claim says, and it keeps the quad
    inside the viewport; but the viewport is not always the target.
    [renderToCurrentTarget] sets it to the target size times the pixel
    ratio of the screen, also for the offscreen pass, whose framebuffer
    object has the size of the frame in pixels.  On a screen of pixel
    ratio 2 the first paint pass after a frame of any size draws with a
    scale equal to (1, 1) into a viewport of twice the frame's width and
    height on the framebuffer of the frame's size, emits the frame read
    back from it, and draws on screen into 1280x960.  A position of the
    quad is on the offscreen target exactly when neither coordinate is
    positive: three quarters of the frame fall outside the target. *)
Theorem hidpi_offscreen_quad_leaves_target (width height : Z) :
  (0 < width)%Z -> (0 < height)%Z ->
  let frame := rgbaFrame width height in
  let image := vf_toImage frame in
  let frameSize := mkSize width height in
  let w := updateVideoFrame qtIdentity frame newWidget in
  let offscreen :=
    mkDrawCall 0 f_1 (aspectScale (frameAspectSize image) frameSize)
               (mkSize (width * 2) (height * 2)) in
  let onscreen :=
    mkDrawCall 0 f_1 (aspectScale (frameAspectSize image) (mkSize 640 480))
               (mkSize 1280 960) in
  snd (paintGL hiDpiEnv w)
  = [DrawOffscreen frameSize offscreen;
     ProcessedFrameReady frameSize image;
     DrawOnScreen onscreen] /\
  v2_x (dc_scale offscreen) == 1 /\ v2_y (dc_scale offscreen) == 1 /\
  forall a_position a_texCoord : vec2,
    -1 <= v2_x a_position <= 1 -> -1 <= v2_y a_position <= 1 ->
    (onTarget frameSize
       (windowPosition (dc_viewport offscreen)
          (fst (vertexMain a_position a_texCoord (dc_scale offscreen))))
     <-> v2_x a_position <= 0 /\ v2_y a_position <= 0).
Proof.
  intros Hw Hh; cbv zeta.
  assert (Hnull : isNull (vf_toImage (rgbaFrame width height)) = false).
  { unfold isNull, rgbaFrame; cbn [vf_toImage img_width img_height].
    destruct (Z.leb_spec width 0); [lia|]. destruct (Z.leb_spec height 0); [lia|].
    reflexivity. }
  assert (Hempty : size_isEmpty (mkSize width height) = false).
  { unfold size_isEmpty; cbn [sz_width sz_height].
    destruct (Z.leb_spec width 0); [lia|]. destruct (Z.leb_spec height 0); [lia|].
    reflexivity. }
  destruct (aspect_fit_scale (vf_toImage (rgbaFrame width height)) (mkSize width height)
              Hw Hh Hw Hh) as (_ & _ & Hequal & _).
  destruct (Hequal ltac:(reflexivity)) as [Hsx Hsy].
  split; [|split; [exact Hsx | split; [exact Hsy|]]].
  - unfold rgbaFrame in *. cbn [vf_toImage] in *.
    set (image := mkImage _ _ _ _ _) in *.
    assert (Hfmt : img_format image = Format_RGBA8888) by reflexivity.
    assert (Hsize : img_size image = mkSize width height) by reflexivity.
    clearbody image.
    assert (Hstored : updateVideoFrame qtIdentity (mkVideoFrame true image) newWidget
                      = mkWidget image true true FilterType.None f_1 false None None
                                 false 1).
    { unfold updateVideoFrame. cbn [vf_isValid vf_toImage negb].
      rewrite Hnull, Hfmt. reflexivity. }
    rewrite Hstored. unfold paintGL. cbn [m_currentImage]. rewrite Hnull.
    change (ensureGeometry (ensureProgram hiDpiEnv _))
      with (mkWidget image true true FilterType.None f_1 true None None true 1).
    assert (Huploaded :
              uploadTextureIfNeeded
                (mkWidget image true true FilterType.None f_1 true None None true 1)
              = mkWidget image false true FilterType.None f_1 true
                         (Some (mkTexture true width height)) None true 1).
    { unfold uploadTextureIfNeeded. cbn [m_textureDirty m_currentImage negb orb].
      rewrite Hnull, Hsize. reflexivity. }
    rewrite Huploaded.
    cbn [m_program m_texture m_currentImage isSome negb orb]. rewrite Hsize.
    assert (Hframebuffer :
              ensureFramebuffer hiDpiEnv (mkSize width height)
                (mkWidget image false true FilterType.None f_1 true
                          (Some (mkTexture true width height)) None true 1)
              = mkWidget image false true FilterType.None f_1 true
                         (Some (mkTexture true width height))
                         (Some (mkSize width height)) true 1).
    { unfold ensureFramebuffer. rewrite Hempty. reflexivity. }
    rewrite Hframebuffer. reflexivity.
  - intros a_position a_texCoord Hx Hy.
    cbn [dc_viewport dc_scale] in *.
    set (scale := aspectScale _ _) in *. clearbody scale.
    unfold onTarget, windowPosition, vertexMain; cbn [fst snd v2_x v2_y sz_width sz_height].
    rewrite (window_axis_doubled _ _ width Hsx Hw Hx).
    rewrite (window_axis_doubled _ _ height Hsy Hh Hy). reflexivity.
Qed.

Lemma hidpi_offscreen_quad_leaves_target_witness :
  let image := vf_toImage (rgbaFrame 4 2) in
  let w := updateVideoFrame qtIdentity (rgbaFrame 4 2) newWidget in
  let scale := aspectScale (frameAspectSize image) (mkSize 4 2) in
  snd (paintGL hiDpiEnv w)
  = [DrawOffscreen (mkSize 4 2) (mkDrawCall 0 f_1 scale (mkSize 8 4));
     ProcessedFrameReady (mkSize 4 2) image;
     DrawOnScreen (mkDrawCall 0 f_1
                     (aspectScale (frameAspectSize image) (mkSize 640 480))
                     (mkSize 1280 960))] /\
  ~ onTarget (mkSize 4 2)
      (windowPosition (mkSize 8 4) (fst (vertexMain (mkVec2 1 1) (mkVec2 1 0) scale))).
Proof.
  cbv zeta.
  destruct (hidpi_offscreen_quad_leaves_target 4 2 ltac:(reflexivity) ltac:(reflexivity))
    as (Hout & _ & _ & Hquad).
  split; [exact Hout|]. intros Hon.
  apply (Hquad (mkVec2 1 1) (mkVec2 1 0)) in Hon; cbn [v2_x v2_y] in *; lra.
Defined.

Close Scope Q_scope.

(** ** The widget: filter strength *)

Lemma fltb_fleb (a b : float) : fltb a b = true -> fleb a b = true.
Proof.
  unfold fltb, fleb, SFltb, SFleb.
  destruct (SFcompare a b) as [[]|]; intros H; try discriminate H; reflexivity.
Qed.

(** A positive [float] that is not above [1.0f] is at most [1.0f]; the
    first hypothesis excludes the unordered case. *)
Lemma not_above_one (x : float) :
  fltb f_0 x = true -> fltb f_1 x = false -> fleb x f_1 = true.
Proof.
  unfold fltb, fleb, SFltb, SFleb, f_0, f_1.
  destruct x as [sx | sx | | sx m e]; cbn [SFcompare].
  - intros H; discriminate H.
  - destruct sx; intros Hpos Hone; try discriminate Hpos; discriminate Hone.
  - intros H; discriminate H.
  - destruct sx; [intros H; discriminate H|]. intros _.
    rewrite (Z.compare_antisym (-23) e).
    change (Pos.compare_cont Eq m 8388608)
      with (Pos.compare_cont (CompOpp Eq) m 8388608).
    rewrite <- (Pos.compare_cont_antisym 8388608 m Eq).
    destruct (-23 ?= e)%Z; cbn [CompOpp];
      [destruct (Pos.compare_cont Eq 8388608 m); cbn [CompOpp] | |];
      intros H; try discriminate H; reflexivity.
Qed.

Lemma qBound_unit (strength : float) : inUnitInterval (qBound f_0 strength f_1).
Proof.
  unfold inUnitInterval, qBound, qMax, qMin.
  destruct (fltb f_1 strength) eqn:Hhi; [split; reflexivity|].
  destruct (fltb f_0 strength) eqn:Hlo; [|split; reflexivity].
  split; [apply fltb_fleb; exact Hlo | apply not_above_one; assumption].
Qed.

Lemma setFilterStrength_strength (strength : float) (w : Widget) :
  m_filterStrength (setFilterStrength strength w) = m_filterStrength w \/
  m_filterStrength (setFilterStrength strength w) = qBound f_0 strength f_1.
Proof.
  unfold setFilterStrength. destruct (qFuzzyCompare _ _); [left | right]; reflexivity.
Qed.

Lemma paintGL_strength (env : GLEnv) (w : Widget) :
  m_filterStrength (fst (paintGL env w)) = m_filterStrength w.
Proof.
  unfold paintGL, ensureFramebuffer, uploadTextureIfNeeded, ensureGeometry, ensureProgram.
  repeat match goal with
         | |- context [if ?b then _ else _] => destruct b; cbn
         | |- context [match m_framebuffer ?x with _ => _ end] =>
             destruct (m_framebuffer x); cbn
         end; reflexivity.
Qed.

(** No call but [setFilterStrength] changes the strength. *)
Lemma step_strength (qt : QtImaging) (c : Call) (w : Widget) :
  match c with
  | CallSetFilterStrength _ => True
  | _ => m_filterStrength (fst (step qt c w)) = m_filterStrength w
  end.
Proof.
  destruct c; cbn [step fst]; try exact I.
  - unfold setFilter. destruct (FilterType.eqb _ _); reflexivity.
  - unfold updateVideoFrame.
    destruct (negb _); [reflexivity|]. destruct (isNull _); reflexivity.
  - unfold initializeGL, ensureGeometry, ensureProgram, cleanupGLResources; cbn.
    destruct (negb _); reflexivity.
  - reflexivity.
  - apply paintGL_strength.
  - unfold handleContextAboutToBeDestroyed. destruct (negb _); reflexivity.
Qed.

Lemma step_strengthClamped (qt : QtImaging) (c : Call) (w : Widget) :
  strengthClamped w -> strengthClamped (fst (step qt c w)).
Proof.
  unfold strengthClamped. intros Hw.
  pose proof (step_strength qt c w) as Hsame.
  destruct c; try (rewrite Hsame; exact Hw).
  cbn [step fst].
  destruct (setFilterStrength_strength strength w) as [-> | ->];
    [exact Hw | apply qBound_unit].
Qed.

Lemma run_strengthClamped (qt : QtImaging) (calls : list Call) :
  forall w, strengthClamped w -> strengthClamped (fst (run qt calls w)).
Proof.
  induction calls as [|c calls IH]; intros w Hw; cbn [run]; [exact Hw|].
  pose proof (step_strengthClamped qt c w Hw) as Hstep.
  destruct (step qt c w) as [w1 out1]. cbn [fst] in Hstep.
  specialize (IH w1 Hstep). destruct (run qt calls w1) as [w2 out2]. exact IH.
Qed.

(** C9. The strength stored by [setFilterStrength] is either the one
    already stored or [qBound(0.0f, s, 1.0f)], which lies in [0, 1] for
    every [float] [s] (infinities and NaN included); the constructor
    stores 1; no other call writes the strength; hence the stored strength
    lies in [0, 1] after every sequence of calls, in particular after
    every call of [setFilterStrength]. *)
Theorem filter_strength_in_unit_interval (qt : QtImaging) :
  (forall (strength : float) (w : Widget),
      m_filterStrength (setFilterStrength strength w) = m_filterStrength w \/
      m_filterStrength (setFilterStrength strength w) = qBound f_0 strength f_1) /\
  (forall strength : float, inUnitInterval (qBound f_0 strength f_1)) /\
  (forall (c : Call) (w : Widget),
      match c with
      | CallSetFilterStrength _ => True
      | _ => m_filterStrength (fst (step qt c w)) = m_filterStrength w
      end) /\
  (forall calls : list Call,
      inUnitInterval (m_filterStrength (fst (run qt calls newWidget)))) /\
  (forall (calls : list Call) (strength : float),
      inUnitInterval
        (m_filterStrength (setFilterStrength strength (fst (run qt calls newWidget))))).
Proof.
  assert (Hnew : strengthClamped newWidget) by (split; reflexivity).
  split; [exact setFilterStrength_strength|].
  split; [exact qBound_unit|].
  split; [exact (step_strength qt)|].
  split.
  - intros calls. apply (run_strengthClamped qt calls newWidget Hnew).
  - intros calls strength.
    apply (step_strengthClamped qt (CallSetFilterStrength strength)).
    apply (run_strengthClamped qt calls newWidget Hnew).
Qed.

(** ** The widget: one emission per frame *)

Lemma run_app (qt : QtImaging) (calls1 calls2 : list Call) :
  forall w,
    run qt (calls1 ++ calls2) w
    = (fst (run qt calls2 (fst (run qt calls1 w))),
       snd (run qt calls1 w) ++ snd (run qt calls2 (fst (run qt calls1 w)))).
Proof.
  induction calls1 as [|c calls1 IH]; intros w; cbn [run app fst snd].
  - destruct (run qt calls2 w); reflexivity.
  - destruct (step qt c w) as [w1 out1]. rewrite IH.
    destruct (run qt calls1 w1) as [w2 out2]; cbn [fst snd].
    rewrite app_assoc. reflexivity.
Qed.

Lemma emissions_app (out1 out2 : list Effect) :
  emissions (out1 ++ out2) = emissions out1 ++ emissions out2.
Proof. unfold emissions. apply flat_map_app. Qed.

Lemma emissions_drawn (f : DrawCall -> Effect) (call : option DrawCall) :
  (forall c, emissions [f c] = []) -> emissions (drawn f call) = [].
Proof. intros Hf. destruct call; [apply Hf | reflexivity]. Qed.

Lemma ensureProgram_eq (env : GLEnv) (w : Widget) :
  ensureProgram env w = with_program (m_program w || gl_linkOk env) w.
Proof.
  destruct w as [image dirty pending type strength program texture fb geometry updates].
  unfold ensureProgram, with_program; cbn.
  destruct program, (gl_linkOk env); reflexivity.
Qed.

Lemma ensureGeometry_eq (w : Widget) :
  ensureGeometry w = with_geometryInitialized true w.
Proof.
  destruct w as [image dirty pending type strength program texture fb geometry updates].
  unfold ensureGeometry, with_geometryInitialized; cbn.
  destruct geometry; reflexivity.
Qed.

Lemma uploadTextureIfNeeded_eq (w : Widget) :
  isNull (m_currentImage w) = false ->
  exists t : Texture,
    uploadTextureIfNeeded w
    = if m_textureDirty w
      then with_textureDirty false (with_texture (Some t) w)
      else w.
Proof.
  intros Hnull. unfold uploadTextureIfNeeded. rewrite Hnull, orb_false_r.
  destruct (m_textureDirty w); cbn [negb].
  - eexists. reflexivity.
  - exists (mkTexture false 0 0). reflexivity.
Qed.

Lemma with_framebuffer_same (w : Widget) :
  with_framebuffer (m_framebuffer w) w = w.
Proof. destruct w; reflexivity. Qed.

Lemma ensureFramebuffer_eq (env : GLEnv) (size : QSize) (w : Widget) :
  size_isEmpty size = false ->
  exists fb : option QSize,
    ensureFramebuffer env size w = with_framebuffer fb w /\
    (gl_framebufferOk env = true -> isSome fb = true).
Proof.
  intros Hsize. unfold ensureFramebuffer. rewrite Hsize.
  destruct (m_framebuffer w) as [current|] eqn:Hfb.
  - destruct (size_eqb current size).
    + exists (Some current).
      split; [rewrite <- Hfb, with_framebuffer_same; reflexivity | reflexivity].
    + destruct (gl_framebufferOk env); cbn [negb]; eexists; split;
        try reflexivity; auto; discriminate.
  - destruct (gl_framebufferOk env); cbn [negb]; eexists; split;
      try reflexivity; auto; discriminate.
Qed.

(** A paint pass while the processed copy is owed: it either leaves it
    owed and emits nothing, which a processing pass never does, or emits
    the processed copy of the stored image once and clears the flag. *)
Lemma paintGL_pending (env : GLEnv) (w : Widget) (img : QImage) :
  isNull img = false -> pendingPhase img w ->
  let r := paintGL env w in
  (pendingPhase img (fst r) /\ emissions (snd r) = [] /\
   gl_linkOk env && gl_framebufferOk env = false) \/
  (m_emitPending (fst r) = false /\ emissions (snd r) = [(img_size img, img)]).
Proof.
  intros Hnull (Himg & Hpend & Htex); cbv zeta.
  unfold paintGL. rewrite Himg, Hnull.
  rewrite ensureProgram_eq, ensureGeometry_eq.
  set (w1 := with_geometryInitialized true (with_program _ w)).
  destruct (uploadTextureIfNeeded_eq w1) as [t ->];
    [subst w1; cbn; rewrite Himg; exact Hnull|].
  set (w2 := if m_textureDirty w1 then _ else w1).
  assert (Hw2 : m_currentImage w2 = img /\ m_emitPending w2 = true /\
                isSome (m_texture w2) = true /\
                m_program w2 = m_program w || gl_linkOk env).
  { subst w2 w1. cbn. destruct (m_textureDirty w) eqn:Hdirty; cbn.
    - auto.
    - destruct Htex as [Hd | Ht]; [congruence | auto]. }
  destruct Hw2 as (Himg2 & Hpend2 & Htex2 & Hprog2).
  rewrite Htex2, Hprog2, Himg2. cbn [negb]. rewrite orb_false_r.
  destruct (m_program w || gl_linkOk env) eqn:Hprog; cbn [negb].
  - destruct (ensureFramebuffer_eq env (img_size img) w2) as (fb & -> & Hfb);
      [exact Hnull|].
    cbn [m_emitPending m_framebuffer with_framebuffer]. rewrite Hpend2. cbn [andb].
    destruct fb as [size|]; cbn [isSome fst snd].
    + right. split; [reflexivity|].
      rewrite !emissions_app, !emissions_drawn by reflexivity.
      cbn. rewrite Himg2. reflexivity.
    + left. split; [|split].
      * unfold pendingPhase. cbn. auto.
      * apply emissions_drawn. reflexivity.
      * destruct (gl_framebufferOk env); [specialize (Hfb eq_refl); discriminate|].
        apply andb_false_r.
  - left. cbn [fst snd]. split; [|split].
    + unfold pendingPhase. auto.
    + reflexivity.
    + apply orb_false_iff in Hprog as [_ ->]. reflexivity.
Qed.

(** A paint pass when nothing is owed emits nothing. *)
Lemma paintGL_idle (env : GLEnv) (w : Widget) :
  m_emitPending w = false ->
  m_emitPending (fst (paintGL env w)) = false /\ emissions (snd (paintGL env w)) = [].
Proof.
  intros Hidle. unfold paintGL.
  destruct (isNull (m_currentImage w)) eqn:Hnull; [auto|].
  rewrite ensureProgram_eq, ensureGeometry_eq.
  set (w1 := with_geometryInitialized true (with_program _ w)).
  destruct (uploadTextureIfNeeded_eq w1) as [t ->]; [subst w1; cbn; exact Hnull|].
  set (w2 := if m_textureDirty w1 then _ else w1).
  assert (Hw2 : m_emitPending w2 = false /\ m_currentImage w2 = m_currentImage w)
    by (subst w2 w1; cbn; destruct (m_textureDirty w); cbn; auto).
  destruct Hw2 as [Hidle2 Himg2].
  destruct (negb (m_program w2) || negb (isSome (m_texture w2))); [auto|].
  destruct (ensureFramebuffer_eq env (img_size (m_currentImage w2)) w2)
    as (fb & -> & _); [rewrite Himg2; exact Hnull|].
  cbn [m_emitPending with_framebuffer]. rewrite Hidle2. cbn [andb fst snd app].
  split; [exact Hidle2 | apply emissions_drawn; reflexivity].
Qed.

Lemma step_pending (qt : QtImaging) (c : Call) (w : Widget) (img : QImage) :
  isNull img = false -> betweenArrivals c = true -> pendingPhase img w ->
  let r := step qt c w in
  (pendingPhase img (fst r) /\ emissions (snd r) = [] /\ processingPass c = false) \/
  (m_emitPending (fst r) = false /\ emissions (snd r) = [(img_size img, img)]).
Proof.
  intros Hnull Hquiet Hphase; cbv zeta.
  destruct c; try discriminate Hquiet; cbn [step processingPass].
  - left. cbn [fst snd]. split; [|auto].
    unfold setFilter. destruct (FilterType.eqb _ _); [exact Hphase|].
    destruct Hphase as (Himg & Hpend & Htex). unfold pendingPhase. cbn. auto.
  - left. cbn [fst snd]. split; [|auto].
    unfold setFilterStrength. destruct (qFuzzyCompare _ _); [exact Hphase|].
    destruct Hphase as (Himg & Hpend & Htex). unfold pendingPhase. cbn. auto.
  - left. cbn [fst snd]. auto.
  - apply paintGL_pending; assumption.
Qed.

Lemma step_idle (qt : QtImaging) (c : Call) (w : Widget) :
  betweenArrivals c = true -> m_emitPending w = false ->
  m_emitPending (fst (step qt c w)) = false /\ emissions (snd (step qt c w)) = [].
Proof.
  intros Hquiet Hidle.
  destruct c; try discriminate Hquiet; cbn [step fst snd].
  - split; [|reflexivity]. unfold setFilter.
    destruct (FilterType.eqb _ _); [exact Hidle | cbn; exact Hidle].
  - split; [|reflexivity]. unfold setFilterStrength.
    destruct (qFuzzyCompare _ _); [exact Hidle | cbn; exact Hidle].
  - auto.
  - apply paintGL_idle. exact Hidle.
Qed.

Lemma run_idle (qt : QtImaging) (calls : list Call) :
  forall w,
    forallb betweenArrivals calls = true -> m_emitPending w = false ->
    m_emitPending (fst (run qt calls w)) = false /\
    emissions (snd (run qt calls w)) = [].
Proof.
  induction calls as [|c calls IH]; intros w Hquiet Hidle; cbn [run]; [auto|].
  cbn [forallb] in Hquiet. apply andb_true_iff in Hquiet as [Hc Hrest].
  destruct (step_idle qt c w Hc Hidle) as [Hidle1 Hout1].
  destruct (step qt c w) as [w1 out1]; cbn [fst snd] in Hidle1, Hout1.
  destruct (IH w1 Hrest Hidle1) as [Hidle2 Hout2].
  destruct (run qt calls w1) as [w2 out2]; cbn [fst snd] in *.
  rewrite emissions_app, Hout1, Hout2. auto.
Qed.

(** The calls between two arrivals, from the arrival on: the processed
    copy is emitted at most once, and exactly once when one of the calls
    is a processing pass. *)
Lemma run_pending (qt : QtImaging) (img : QImage) (calls : list Call) :
  forall w,
    isNull img = false ->
    forallb betweenArrivals calls = true -> pendingPhase img w ->
    (pendingPhase img (fst (run qt calls w)) /\
     emissions (snd (run qt calls w)) = [] /\
     existsb processingPass calls = false) \/
    (m_emitPending (fst (run qt calls w)) = false /\
     emissions (snd (run qt calls w)) = [(img_size img, img)]).
Proof.
  induction calls as [|c calls IH]; intros w Hnull Hquiet Hphase; cbn [run].
  - left. auto.
  - cbn [forallb existsb] in *. apply andb_true_iff in Hquiet as [Hc Hrest].
    pose proof (step_pending qt c w img Hnull Hc Hphase) as Hstep.
    destruct (step qt c w) as [w1 out1]; cbn [fst snd] in Hstep.
    destruct Hstep as [(Hphase1 & Hout1 & Hnot) | (Hidle1 & Hout1)].
    + specialize (IH w1 Hnull Hrest Hphase1).
      destruct (run qt calls w1) as [w2 out2]; cbn [fst snd] in *.
      rewrite emissions_app, Hout1, Hnot. cbn [app orb].
      exact IH.
    + destruct (run_idle qt calls w1 Hrest Hidle1) as [Hidle2 Hout2].
      destruct (run qt calls w1) as [w2 out2]; cbn [fst snd] in *.
      right. rewrite emissions_app, Hout1, Hout2. auto.
Qed.

Lemma updateVideoFrame_accepted (qt : QtImaging) (frame : QVideoFrame) (w : Widget) :
  accepted qt frame = true ->
  isNull (storedImage qt frame) = false /\
  pendingPhase (storedImage qt frame) (updateVideoFrame qt frame w).
Proof.
  unfold accepted. intros Hacc.
  apply andb_true_iff in Hacc as [Hacc Hstored].
  apply andb_true_iff in Hacc as [Hvalid Himage].
  apply negb_true_iff in Hstored, Himage.
  split; [exact Hstored|].
  unfold updateVideoFrame. rewrite Hvalid, Himage. cbn [negb].
  unfold pendingPhase, storedImage. cbn. auto.
Qed.

(** One frame and what follows it up to the next frame. *)
Lemma round_emits_once (qt : QtImaging) (r : Round) (w : Widget) :
  processedRound qt r ->
  m_emitPending (fst (run qt (roundCalls r) w)) = false /\
  emissions (snd (run qt (roundCalls r) w))
  = [(img_size (storedImage qt (fst r)), storedImage qt (fst r))].
Proof.
  intros (Hacc & Hquiet & Hpass).
  destruct (updateVideoFrame_accepted qt (fst r) w Hacc) as [Hnull Hphase].
  unfold roundCalls. cbn [run step].
  pose proof (run_pending qt _ (snd r) _ Hnull Hquiet Hphase) as Hrun.
  destruct (run qt (snd r) _) as [w2 out2]; cbn [fst snd app] in *.
  destruct Hrun as [(_ & _ & Hnone) | Hdone]; [congruence | exact Hdone].
Qed.

(** C1. Let N frames be delivered by [updateVideoFrame], each accepted
    and each followed, before the next one arrives, by any number of paint
    passes and filter changes among which one pass can render offscreen and
    read back.  Then [processedFrameReady] is emitted exactly N times, once
    per frame and in the order of arrival, each time with the size and the
    image of that frame; after the last round the pending flag is clear. *)
Theorem one_emission_per_frame (qt : QtImaging) (rounds : list Round) (w : Widget) :
  Forall (processedRound qt) rounds ->
  let r := run qt (flat_map roundCalls rounds) w in
  length (emissions (snd r)) = length rounds /\
  emissions (snd r)
  = map (fun rd => (img_size (storedImage qt (fst rd)), storedImage qt (fst rd))) rounds /\
  (rounds = [] \/ m_emitPending (fst r) = false).
Proof.
  intros Hrounds; cbv zeta. revert w.
  induction Hrounds as [|rd rounds Hrd Hrounds IH]; intros w.
  - cbn. auto.
  - cbn [flat_map]. rewrite run_app; cbn [fst snd].
    destruct (round_emits_once qt rd w Hrd) as [Hidle Hout].
    destruct (IH (fst (run qt (roundCalls rd) w))) as (Hlen & Hall & Hlast).
    rewrite emissions_app, Hout, Hall. cbn [app map length].
    split; [rewrite length_map; reflexivity|]. split; [reflexivity|].
    right. destruct Hlast as [-> | Hclear]; [cbn; exact Hidle | exact Hclear].
Qed.

Lemma one_emission_per_frame_witness :
  let r := run qtIdentity (flat_map roundCalls twoRounds) newWidget in
  length (emissions (snd r)) = length twoRounds /\
  emissions (snd r)
  = map (fun rd => (img_size (storedImage qtIdentity (fst rd)),
                    storedImage qtIdentity (fst rd))) twoRounds /\
  (twoRounds = [] \/ m_emitPending (fst r) = false).
Proof.
  apply (one_emission_per_frame qtIdentity twoRounds newWidget).
  repeat constructor.
Defined.

(** ** Checks of the embedding *)

(** The three [float] literals are the binary32 values of 0, 1 and 100000,
    and [qFuzzyCompare] holds of the constructor's strength against
    [1.0f], so that [setFilterStrength(1.0f)] on a new widget is the
    early return. *)
Example float_literals :
  f_1 = SFone 24 128 /\
  f_100000 = binary_normalize 24 128 100000 0 false /\
  valid_binary 24 128 f_1 = true /\ valid_binary 24 128 f_100000 = true /\
  setFilterStrength f_1 newWidget = newWidget /\
  m_filterStrength (setFilterStrength S754_nan newWidget) = f_0 /\
  m_filterStrength (setFilterStrength (S754_infinity false) newWidget) = f_1.
Proof. vm_compute. repeat split; reflexivity. Qed.

(** For an image as Qt builds it, every byte [convertRgbToYuyv] reads lies
    in the pixel storage: [peek] never returns its default there. *)
Lemma pixel_reads_in_storage (image : QImage) (y x k : Z) :
  rgb888_image image ->
  0 <= y < img_height image -> 0 <= x < img_width image -> 0 <= k < 3 ->
  0 <= constScanLine image y + 3 * x + k < Z.of_nat (length (img_bits image)).
Proof.
  unfold rgb888_image, constScanLine.
  intros (Hw & Hh & _ & Hline & _ & Hlen) Hy Hx Hk. rewrite Hlen.
  assert (0 <= y * img_bytesPerLine image) by nia.
  assert ((y + 1) * img_bytesPerLine image
          <= img_bytesPerLine image * img_height image) by nia.
  lia.
Qed.

(* ================================================================= *)
(** * Further properties of the conversion *)

(** The components of every pixel lie in the BT.601 video range: luma in
    16..235 and both chroma in 16..240, so [clampToByte] never cuts. *)
Theorem rgbToYuv_video_range (r g b : byte) :
  16 <= byte.unsigned (yuv_y (rgbToYuv r g b)) <= 235 /\
  16 <= byte.unsigned (yuv_u (rgbToYuv r g b)) <= 240 /\
  16 <= byte.unsigned (yuv_v (rgbToYuv r g b)) <= 240.
Proof.
  pose proof (byte_unsigned_bounds r). pose proof (byte_unsigned_bounds g).
  pose proof (byte_unsigned_bounds b).
  rewrite rgbToYuv_y, rgbToYuv_u, rgbToYuv_v.
  unfold bt601_Y, bt601_U, bt601_V, clampByte. change (2 ^ 8) with 256.
  repeat split; Z.div_mod_to_equations; lia.
Qed.

(** A grey pixel has neutral chroma: U = V = 128 whatever its level, and
    its luma runs from 16 (black) to 235 (white). *)
Theorem grey_pixel_has_neutral_chroma (c : byte) :
  yuv_u (rgbToYuv c c c) = byte.of_Z 128 /\
  yuv_v (rgbToYuv c c c) = byte.of_Z 128 /\
  byte.unsigned (yuv_y (rgbToYuv c c c)) = (220 * byte.unsigned c + 128) / 256 + 16.
Proof.
  pose proof (byte_unsigned_bounds c) as Hc.
  split; [|split].
  - apply byte.unsigned_inj. rewrite rgbToYuv_u, byte_of_Z_small by lia.
    unfold bt601_U, clampByte. change (2 ^ 8) with 256.
    Z.div_mod_to_equations. lia.
  - apply byte.unsigned_inj. rewrite rgbToYuv_v, byte_of_Z_small by lia.
    unfold bt601_V, clampByte. change (2 ^ 8) with 256.
    Z.div_mod_to_equations. lia.
  - rewrite rgbToYuv_y. unfold bt601_Y, clampByte. change (2 ^ 8) with 256.
    Z.div_mod_to_equations. lia.
Qed.

(** For an RGB888 image whose output size fits an [int], the conversion
    stores outside the buffer exactly when the width is odd. *)
Theorem conversion_in_bounds_iff_even_width (image : QImage) (outBuffer : QByteArray) :
  rgb888_image image ->
  img_width image * img_height image * 2 <= INT_MAX ->
  (om_overrun (snd (convertRgbToYuyv image outBuffer)) = []
   <-> Z.even (img_width image) = true).
Proof.
  intros Himg Hfit.
  destruct (rgb888_image_bounds image Himg) as (Hw & Hh & H3).
  destruct (convertRgbToYuyv_spec image outBuffer Hw Hh Hfit H3) as (_ & _ & _ & Hov).
  rewrite Hov, <- Z.negb_odd.
  destruct (Z.odd (img_width image)); cbn [negb]; unfold lastRowSpill; split;
    intros H; (reflexivity || discriminate H).
Qed.

Lemma conversion_in_bounds_iff_even_width_witness :
  om_overrun (snd (convertRgbToYuyv solidRed4x2 [])) = []
  <-> Z.even (img_width solidRed4x2) = true.
Proof.
  apply (conversion_in_bounds_iff_even_width solidRed4x2 []).
  - unfold rgb888_image, fits_int, INT_MIN, INT_MAX. cbn -[Z.mul Z.lt Z.le].
    repeat split; lia.
  - vm_compute. discriminate.
Defined.

Lemma rowEncoded_agree (image : QImage) (width y o : Z) (l1 l2 : list byte) :
  0 < width -> 0 <= o < width * 2 ->
  rowEncoded image width l1 y -> rowEncoded image width l2 y ->
  byteAt l1 (y * width * 2 + o) = byteAt l2 (y * width * 2 + o).
Proof.
  intros Hw Ho [Hpairs1 Hlone1] [Hpairs2 Hlone2].
  destruct (Z.lt_ge_cases o (4 * (width / 2))) as [Hpair | Hlast].
  - set (x := 2 * (o / 4)).
    assert (Hx : 0 <= x) by (subst x; Z.div_mod_to_equations; lia).
    assert (Hev : Z.even x = true)
      by (apply Z.even_spec; exists (o / 4); reflexivity).
    assert (Hlt : x + 1 < width) by (subst x; Z.div_mod_to_equations; lia).
    assert (Hk : o = x * 2 \/ o = x * 2 + 1 \/ o = x * 2 + 2 \/ o = x * 2 + 3)
      by (subst x; Z.div_mod_to_equations; lia).
    clearbody x.
    destruct (Hpairs1 _ Hx Hev Hlt) as (A0 & A1 & A2 & A3).
    destruct (Hpairs2 _ Hx Hev Hlt) as (B0 & B1 & B2 & B3).
    destruct Hk as [-> | [-> | [-> | ->]]]; rewrite ?Z.add_assoc; congruence.
  - assert (Hodd : Z.odd width = true)
      by (apply odd_half; Z.div_mod_to_equations; lia).
    destruct (Hlone1 Hodd) as (A0 & A1). destruct (Hlone2 Hodd) as (B0 & B1).
    assert (Hk : o = (width - 1) * 2 \/ o = (width - 1) * 2 + 1)
      by (Z.div_mod_to_equations; lia).
    destruct Hk as [-> | ->]; rewrite ?Z.add_assoc; congruence.
Qed.

(** The result does not depend on what the output buffer held before:
    every one of its [width * height * 2] bytes is stored by the loops. *)
Theorem conversion_ignores_previous_contents
    (image : QImage) (buffer1 buffer2 : QByteArray) :
  rgb888_image image ->
  img_width image * img_height image * 2 <= INT_MAX ->
  convertRgbToYuyv image buffer1 = convertRgbToYuyv image buffer2.
Proof.
  intros Himg Hfit.
  destruct (rgb888_image_bounds image Himg) as (Hw & Hh & H3).
  destruct (convertRgbToYuyv_spec image buffer1 Hw Hh Hfit H3)
    as (Hok1 & Hlen1 & Henc1 & Hov1).
  destruct (convertRgbToYuyv_spec image buffer2 Hw Hh Hfit H3)
    as (Hok2 & Hlen2 & Henc2 & Hov2).
  destruct (convertRgbToYuyv image buffer1) as [ok1 [bytes1 over1]].
  destruct (convertRgbToYuyv image buffer2) as [ok2 [bytes2 over2]].
  cbn [fst snd om_bytes om_overrun] in *.
  f_equal; [congruence|]. f_equal; [|congruence].
  apply list_eq. intros i.
  destruct (Z.lt_ge_cases (Z.of_nat i) (img_width image * img_height image * 2))
    as [Hin | Hout].
  - set (w := img_width image) in *. set (j := Z.of_nat i).
    assert (Hj : 0 <= j) by (subst j; lia).
    assert (Hy : 0 <= j / (w * 2) < img_height image).
    { split; [apply Z.div_pos; lia|]. apply Z.div_lt_upper_bound; [lia|].
      fold j in Hin. lia. }
    assert (Ho : 0 <= j mod (w * 2) < w * 2) by (apply Z.mod_pos_bound; lia).
    pose proof (rowEncoded_agree image w _ _ bytes1 bytes2 Hw Ho
                  (Henc1 _ Hy) (Henc2 _ Hy)) as Hagree.
    replace (j / (w * 2) * w * 2 + j mod (w * 2)) with j in Hagree
      by (rewrite (Z.div_mod j (w * 2)) at 1 by lia; lia).
    unfold byteAt in Hagree. destruct (Z.ltb_spec j 0); [lia|].
    subst j. rewrite Nat2Z.id in Hagree. exact Hagree.
  - rewrite !(proj2 (lookup_ge_None _ _)) by lia. reflexivity.
Qed.

Lemma conversion_ignores_previous_contents_witness :
  convertRgbToYuyv oddFrame3x2 [] = convertRgbToYuyv oddFrame3x2 yuyvRed.
Proof.
  apply (conversion_ignores_previous_contents oddFrame3x2 [] yuyvRed).
  - unfold rgb888_image, fits_int, INT_MIN, INT_MAX. cbn -[Z.mul Z.lt Z.le].
    repeat split; lia.
  - vm_compute. discriminate.
Defined.

(* ================================================================= *)
(** * Further properties of the shaders *)

Local Open Scope Q_scope.

Lemma clamp_unit (x : Q) : 0 <= clamp x 0 1 <= 1.
Proof.
  unfold clamp. split.
  - apply Q.min_glb; [apply Q.le_max_r | lra].
  - apply Q.le_min_r.
Qed.

Lemma clamp_above (x : Q) : 1 <= x -> clamp x 0 1 == 1.
Proof.
  intros Hx. unfold clamp.
  rewrite (Q.max_l x 0) by lra. apply Q.min_r. exact Hx.
Qed.

Lemma mix_at_one (x y a : Q) : a == 1 -> mix x y a == y.
Proof. intros Ha. unfold mix. rewrite Ha. ring. Qed.

Lemma mix_unit (x y a : Q) :
  0 <= x <= 1 -> 0 <= y <= 1 -> 0 <= a <= 1 -> 0 <= mix x y a <= 1.
Proof. intros Hx Hy Ha. unfold mix. split; nra. Qed.

(** A texel in [0, 1] gives a colour in [0, 1], for every value of the
    filter and strength uniforms: no filter pushes the output out of the
    displayable range (and the alpha is the texel's). *)
Theorem fragment_output_is_unit_color
    (u_texture : vec2 -> vec4) (u_filter : Z) (u_strength : Q) (v_texCoord : vec2) :
  unitColor (v4_rgb (u_texture (mkVec2 (v2_x v_texCoord) (1 - v2_y v_texCoord)))) ->
  unitColor (v4_rgb (fragmentMain u_texture u_filter u_strength v_texCoord)).
Proof.
  unfold unitColor, fragmentMain, mix3, clamp3; cbn [v4_rgb v3_r v3_g v3_b].
  intros (Hr & Hg & Hb).
  repeat split; apply mix_unit; auto using clamp_unit.
Qed.

Lemma fragment_output_is_unit_color_witness :
  unitColor (v4_rgb (fragmentMain (fun _ => mkVec4 (mkVec3 0.2 0.9 1) 0.5) 4 0.75
                                  (mkVec2 0.5 0.5))).
Proof.
  apply (fragment_output_is_unit_color (fun _ => mkVec4 (mkVec3 0.2 0.9 1) 0.5)).
  unfold unitColor; cbn [v4_rgb v3_r v3_g v3_b]. lra.
Defined.

(** With a strength of 1 or more the colour is the clamped target of the
    filter alone: nothing of the source colour is blended in. *)
Theorem fragment_full_strength
    (u_texture : vec2 -> vec4) (u_filter : Z) (u_strength : Q) (v_texCoord : vec2) :
  1 <= u_strength ->
  let src := u_texture (mkVec2 (v2_x v_texCoord) (1 - v2_y v_texCoord)) in
  veq3 (v4_rgb (fragmentMain u_texture u_filter u_strength v_texCoord))
       (clamp3 (fragmentTarget u_filter (v4_rgb src)) 0 1).
Proof.
  intros Hs; cbv zeta.
  unfold fragmentMain, veq3, mix3, clamp3; cbn [v4_rgb v3_r v3_g v3_b].
  pose proof (clamp_above u_strength Hs) as Hc.
  repeat split; apply mix_at_one; exact Hc.
Qed.

Lemma fragment_full_strength_witness :
  let src := mkVec4 (mkVec3 0.2 0.9 1) 0.5 in
  veq3 (v4_rgb (fragmentMain (fun _ => src) 2 1 (mkVec2 0.5 0.5)))
       (clamp3 (fragmentTarget 2 (v4_rgb src)) 0 1).
Proof.
  apply (fragment_full_strength (fun _ => mkVec4 (mkVec3 0.2 0.9 1) 0.5) 2 1).
  lra.
Defined.

Lemma aspectScale_factors (frame : QImage) (target : QSize) :
  (0 < img_width frame)%Z -> (0 < img_height frame)%Z ->
  (0 < sz_width target)%Z -> (0 < sz_height target)%Z ->
  let scale := aspectScale (frameAspectSize frame) target in
  1 <= v2_x scale /\ 1 <= v2_y scale /\ (v2_x scale = 1 \/ v2_y scale = 1).
Proof.
  intros Hfw Hfh Htw Hth; cbv zeta.
  pose proof (aspect_positive _ _ Hfw Hfh) as Hfa.
  pose proof (aspect_positive _ _ Htw Hth) as Hta.
  unfold frameAspectSize, isNull.
  destruct (Z.leb_spec (img_width frame) 0); [lia|].
  destruct (Z.leb_spec (img_height frame) 0); [lia|]. cbn [orb].
  unfold aspectScale; cbn [fst snd v2_x v2_y].
  set (fa := inject_Z (img_width frame) / inject_Z (img_height frame)) in *.
  set (ta := inject_Z (sz_width target) / inject_Z (sz_height target)) in *.
  destruct (Qgtb fa ta) eqn:Hcmp; cbn [v2_x v2_y].
  - apply Qgtb_true in Hcmp.
    split; [lra|]. split; [apply quotient_at_least_one; lra|]. left; reflexivity.
  - apply Qgtb_false in Hcmp.
    split; [apply quotient_at_least_one; lra|]. split; [lra|]. right; reflexivity.
Qed.

Lemma window_axis_inside (p s extent : Q) :
  1 <= s -> -1 <= p <= 1 -> 0 <= extent ->
  0 <= (p / s + 1) * (extent / 2) <= extent.
Proof.
  intros Hs Hp Hextent.
  pose proof (scaled_position_inside p s Hs Hp) as Hq.
  set (q := p / s) in *. clearbody q.
  unfold Qdiv. change (/ 2) with (1 # 2).
  assert (Hlow : 0 <= (q + 1) * (extent * (1 # 2)))
    by (apply Qmult_le_0_compat; lra).
  assert (Hhigh : 0 <= (1 - q) * (extent * (1 # 2)))
    by (apply Qmult_le_0_compat; lra).
  split; [exact Hlow|].
  assert (Hsum : (q + 1) * (extent * (1 # 2)) + (1 - q) * (extent * (1 # 2)) == extent)
    by ring.
  lra.
Qed.

(** A draw of [renderToCurrentTarget] for a non-empty image and target
    size sets the viewport to the physical size Qt computes from the
    target size, leaves one component of [u_scale] at 1 and keeps the
    whole quad inside that viewport: every position of the unit quad
    lands, after the vertex stage and the viewport transformation, on a
    window position between (0, 0) and the viewport's size.  The quad is
    therefore on the render target whenever the target has the
    viewport's size in pixels.  Only the order of the two aspects and
    that neither factor is below 1 is used, which rounding keeps. *)
Theorem draw_keeps_quad_inside_viewport
    (env : GLEnv) (targetSize : QSize) (w : Widget) (call : DrawCall) :
  (0 < img_width (m_currentImage w))%Z -> (0 < img_height (m_currentImage w))%Z ->
  (0 < sz_width targetSize)%Z -> (0 < sz_height targetSize)%Z ->
  (0 <= sz_width (gl_physicalSize env targetSize))%Z ->
  (0 <= sz_height (gl_physicalSize env targetSize))%Z ->
  renderToCurrentTarget env targetSize w = Some call ->
  dc_viewport call = gl_physicalSize env targetSize /\
  (v2_x (dc_scale call) = 1 \/ v2_y (dc_scale call) = 1) /\
  forall a_position a_texCoord : vec2,
    -1 <= v2_x a_position <= 1 -> -1 <= v2_y a_position <= 1 ->
    onTarget (dc_viewport call)
      (windowPosition (dc_viewport call)
         (fst (vertexMain a_position a_texCoord (dc_scale call)))).
Proof.
  intros Hfw Hfh Htw Hth Hvw Hvh. unfold renderToCurrentTarget.
  destruct (_ || _); [discriminate|]. cbv zeta. intros [= <-].
  cbn [dc_viewport dc_scale].
  destruct (aspectScale_factors (m_currentImage w) targetSize Hfw Hfh Htw Hth)
    as (Hx & Hy & Hone).
  split; [reflexivity|]. split; [exact Hone|].
  intros a_position a_texCoord Hpx Hpy.
  unfold onTarget, windowPosition, vertexMain; cbn [fst snd v2_x v2_y].
  split; apply window_axis_inside; try assumption;
    change 0 with (inject_Z 0); rewrite <- Zle_Qle; assumption.
Qed.

Lemma draw_keeps_quad_inside_viewport_witness :
  let env := mkGLEnv true true (mkSize 640 480) (scaledSize 1) in
  exists call : DrawCall,
    renderToCurrentTarget env (mkSize 4 2) widgetAfterFirstFrame = Some call /\
    dc_viewport call = mkSize 4 2 /\
    onTarget (mkSize 4 2)
      (windowPosition (dc_viewport call)
         (fst (vertexMain (mkVec2 1 1) (mkVec2 1 0) (dc_scale call)))).
Proof.
  cbv zeta. eexists. split; [reflexivity|].
  destruct (draw_keeps_quad_inside_viewport
              (mkGLEnv true true (mkSize 640 480) (scaledSize 1)) (mkSize 4 2)
              widgetAfterFirstFrame _
              ltac:(reflexivity) ltac:(reflexivity) ltac:(reflexivity) ltac:(reflexivity)
              ltac:(vm_compute; discriminate) ltac:(vm_compute; discriminate) eq_refl)
    as (Hviewport & _ & Hinside).
  split; [exact Hviewport|].
  apply (Hinside (mkVec2 1 1) (mkVec2 1 0)); cbn [v2_x v2_y]; lra.
Defined.

Close Scope Q_scope.

(* ================================================================= *)
(** * Further properties of the widget *)

Lemma size_eqb_eq (a b : QSize) : size_eqb a b = true -> a = b.
Proof.
  destruct a as [aw ah], b as [bw bh]. unfold size_eqb; cbn [sz_width sz_height].
  intros H. apply andb_true_iff in H as [Hw Hh].
  apply Z.eqb_eq in Hw, Hh. congruence.
Qed.

Lemma ensureFramebuffer_size (env : GLEnv) (size : QSize) (w : Widget) :
  size_isEmpty size = false ->
  forall sz, m_framebuffer (ensureFramebuffer env size w) = Some sz -> sz = size.
Proof.
  intros Hsize sz. unfold ensureFramebuffer. rewrite Hsize.
  destruct (m_framebuffer w) as [current|] eqn:Hfb.
  - destruct (size_eqb current size) eqn:Heq.
    + rewrite Hfb. intros [= <-]. apply size_eqb_eq. exact Heq.
    + destruct (gl_framebufferOk env); cbn; intros H; congruence.
  - destruct (gl_framebufferOk env); cbn; intros H; congruence.
Qed.

(** What one paint pass emits: nothing, with the pending flag as it was;
    or, the flag being set and the image not null, the processed copy of
    the current image once, with the flag cleared and the offscreen target
    of the image's size. *)
Lemma paintGL_outcome (env : GLEnv) (w : Widget) :
  let r := paintGL env w in
  (emissions (snd r) = [] /\ m_emitPending (fst r) = m_emitPending w) \/
  (emissions (snd r) = [(img_size (m_currentImage w), m_currentImage w)] /\
   m_emitPending w = true /\ m_emitPending (fst r) = false /\
   isNull (m_currentImage w) = false /\
   m_framebuffer (fst r) = Some (img_size (m_currentImage w))).
Proof.
  cbv zeta. unfold paintGL.
  destruct (isNull (m_currentImage w)) eqn:Hnull; [left; auto|].
  rewrite ensureProgram_eq, ensureGeometry_eq.
  set (w1 := with_geometryInitialized true (with_program _ w)).
  destruct (uploadTextureIfNeeded_eq w1) as [t ->]; [subst w1; cbn; exact Hnull|].
  set (w2 := if m_textureDirty w1 then _ else w1).
  assert (Hw2 : m_emitPending w2 = m_emitPending w /\ m_currentImage w2 = m_currentImage w)
    by (subst w2 w1; cbn; destruct (m_textureDirty w); cbn; auto).
  destruct Hw2 as [Hpend2 Himg2].
  destruct (negb (m_program w2) || negb (isSome (m_texture w2))); [left; auto|].
  rewrite Himg2.
  pose proof (ensureFramebuffer_size env (img_size (m_currentImage w)) w2 Hnull) as Hsz.
  destruct (ensureFramebuffer_eq env (img_size (m_currentImage w)) w2)
    as (fb & Heq & _); [exact Hnull|].
  rewrite Heq in *. cbn [m_emitPending m_framebuffer with_framebuffer] in *.
  rewrite Hpend2.
  destruct (m_emitPending w) eqn:Hpend; cbn [andb].
  - destruct fb as [sz|]; cbn [isSome fst snd].
    + right. rewrite (Hsz sz eq_refl).
      rewrite !emissions_app, !emissions_drawn by reflexivity.
      cbn. rewrite Himg2. auto.
    + left. split; [apply emissions_drawn; reflexivity | exact Hpend2].
  - cbn [fst snd]. left. split; [apply emissions_drawn; reflexivity | exact Hpend2].
Qed.

Lemma step_outcome (qt : QtImaging) (c : Call) (w : Widget) :
  let r := step qt c w in
  (length (emissions (snd r)) + owed (fst r)
   <= (match c with
       | CallUpdateVideoFrame frame => if storesFrame frame then 1 else 0
       | _ => 0
       end) + owed w)%nat /\
  Forall (fun e => fst e = img_size (snd e) /\ isNull (snd e) = false)
         (emissions (snd r)).
Proof.
  cbv zeta. destruct c; cbn [step fst snd emissions flat_map length];
    try (split; [|constructor]).
  - unfold setFilter, owed. destruct (FilterType.eqb _ _); cbn; lia.
  - unfold setFilterStrength, owed. destruct (qFuzzyCompare _ _); cbn; lia.
  - unfold updateVideoFrame, storesFrame, owed.
    destruct (vf_isValid frame); cbn [negb andb]; [|lia].
    destruct (isNull (vf_toImage frame)); cbn; [lia|].
    destruct (m_emitPending w); lia.
  - unfold initializeGL, ensureGeometry, ensureProgram, cleanupGLResources, owed; cbn.
    destruct (negb _); cbn; lia.
  - lia.
  - unfold owed.
    destruct (paintGL_outcome env w) as [(-> & ->) | (-> & -> & -> & Hnull & _)];
      cbn [length]; split; try lia; repeat constructor; cbn [fst snd]; auto.
  - unfold handleContextAboutToBeDestroyed, cleanupGLResources, owed.
    destruct (negb _); cbn; lia.
Qed.

(** No duplicate emission, whatever the calls: [processedFrameReady] is
    emitted at most once per stored frame, over every sequence of calls,
    losses of the OpenGL context included.  (A copy still owed at the
    start or at the end counts on its side.) *)
Theorem emissions_never_exceed_arrivals (qt : QtImaging) (calls : list Call) :
  (forall w : Widget,
      (length (emissions (snd (run qt calls w))) + owed (fst (run qt calls w))
       <= arrivals calls + owed w)%nat) /\
  (length (emissions (snd (run qt calls newWidget))) <= arrivals calls)%nat.
Proof.
  assert (Hall : forall w : Widget,
             (length (emissions (snd (run qt calls w))) + owed (fst (run qt calls w))
              <= arrivals calls + owed w)%nat).
  { induction calls as [|c calls IH]; intros w; cbn [run]; [cbn; lia|].
    destruct (step_outcome qt c w) as [Hstep _].
    destruct (step qt c w) as [w1 out1]; cbn [fst snd] in Hstep.
    specialize (IH w1). destruct (run qt calls w1) as [w2 out2]; cbn [fst snd] in *.
    rewrite emissions_app, length_app.
    unfold arrivals in *; cbn [List.filter].
    destruct c; cbn [length] in *; try lia.
    destruct (storesFrame frame); cbn [length]; lia. }
  split; [exact Hall|].
  specialize (Hall newWidget). cbn [owed newWidget m_emitPending] in Hall. lia.
Qed.

Lemma paintGL_image (env : GLEnv) (w : Widget) :
  m_currentImage (fst (paintGL env w)) = m_currentImage w.
Proof.
  unfold paintGL, ensureFramebuffer, uploadTextureIfNeeded, ensureGeometry, ensureProgram.
  repeat match goal with
         | |- context [if ?b then _ else _] => destruct b; cbn
         | |- context [match m_framebuffer ?x with _ => _ end] =>
             destruct (m_framebuffer x); cbn
         end; reflexivity.
Qed.

Lemma step_image (qt : QtImaging) (c : Call) (w : Widget) :
  m_currentImage (fst (step qt c w))
  = match c with
    | CallUpdateVideoFrame frame =>
        if storesFrame frame then storedImage qt frame else m_currentImage w
    | _ => m_currentImage w
    end.
Proof.
  destruct c; cbn [step fst].
  - unfold setFilter. destruct (FilterType.eqb _ _); reflexivity.
  - unfold setFilterStrength. destruct (qFuzzyCompare _ _); reflexivity.
  - unfold updateVideoFrame, storesFrame, storedImage.
    destruct (vf_isValid frame); cbn [negb andb]; [|reflexivity].
    destruct (isNull (vf_toImage frame)); reflexivity.
  - unfold initializeGL, ensureGeometry, ensureProgram, cleanupGLResources; cbn.
    destruct (negb _); reflexivity.
  - reflexivity.
  - apply paintGL_image.
  - unfold handleContextAboutToBeDestroyed. destruct (negb _); reflexivity.
Qed.

Lemma step_emits_current (qt : QtImaging) (c : Call) (w : Widget) :
  Forall (fun e => snd e = m_currentImage w) (emissions (snd (step qt c w))).
Proof.
  destruct c; cbn [step snd emissions flat_map]; try constructor.
  destruct (paintGL_outcome env w) as [(-> & _) | (-> & _)];
    repeat constructor.
Qed.

(** Every frame emitted, over every sequence of calls from every state,
    is the copy of an image that a call of [updateVideoFrame] stored (or
    of the image present at the start); that image is not null, and the
    size emitted is its own, not the size of the widget. *)
Theorem emitted_frames_come_from_delivered_images (qt : QtImaging) (calls : list Call) :
  forall w : Widget,
    Forall (fun e => fst e = img_size (snd e) /\ isNull (snd e) = false /\
                     In (snd e) (m_currentImage w :: deliveredImages qt calls))
           (emissions (snd (run qt calls w))).
Proof.
  induction calls as [|c calls IH]; intros w; cbn [run]; [constructor|].
  destruct (step_outcome qt c w) as [_ Hshape].
  pose proof (step_emits_current qt c w) as Hsource.
  pose proof (step_image qt c w) as Himage.
  destruct (step qt c w) as [w1 out1]; cbn [fst snd] in Hshape, Hsource, Himage.
  specialize (IH w1). destruct (run qt calls w1) as [w2 out2]; cbn [fst snd] in *.
  rewrite emissions_app. apply Forall_app. split.
  - rewrite Forall_forall in *. intros e He.
    destruct (Hshape e He) as [Hsize Hnull]. specialize (Hsource e He).
    repeat split; auto. left. congruence.
  - eapply Forall_impl; [exact IH|].
    intros e (Hsize & Hnull & Hin). repeat split; auto.
    destruct Hin as [Hcur | Hlater].
    + rewrite Himage in Hcur. unfold deliveredImages; cbn [flat_map].
      destruct c; try (left; exact Hcur).
      destruct (storesFrame frame); [right; left; exact Hcur | left; exact Hcur].
    + right. unfold deliveredImages; cbn [flat_map].
      apply in_or_app. right. exact Hlater.
Qed.

Lemma paintGL_blank (env : GLEnv) (w : Widget) :
  m_texture w = None -> m_textureDirty w = false ->
  snd (paintGL env w) = [] /\
  m_texture (fst (paintGL env w)) = None /\
  m_textureDirty (fst (paintGL env w)) = false.
Proof.
  intros Htex Hdirty. unfold paintGL.
  destruct (isNull (m_currentImage w)); [auto|].
  rewrite ensureProgram_eq, ensureGeometry_eq.
  set (w1 := with_geometryInitialized true (with_program _ w)).
  assert (Hup : uploadTextureIfNeeded w1 = w1).
  { unfold uploadTextureIfNeeded. subst w1; cbn. rewrite Hdirty. reflexivity. }
  rewrite Hup. subst w1; cbn. rewrite Htex. cbn. rewrite orb_true_r. auto.
Qed.

Lemma step_blank (qt : QtImaging) (c : Call) (w : Widget) :
  betweenArrivals c = true ->
  m_texture w = None -> m_textureDirty w = false ->
  snd (step qt c w) = [] /\
  m_texture (fst (step qt c w)) = None /\
  m_textureDirty (fst (step qt c w)) = false.
Proof.
  intros Hquiet Htex Hdirty.
  destruct c; try discriminate Hquiet; cbn [step fst snd].
  - unfold setFilter. destruct (FilterType.eqb _ _); cbn; auto.
  - unfold setFilterStrength. destruct (qFuzzyCompare _ _); cbn; auto.
  - auto.
  - apply paintGL_blank; assumption.
Qed.

Lemma run_blank (qt : QtImaging) (calls : list Call) :
  forall w,
    forallb betweenArrivals calls = true ->
    m_texture w = None -> m_textureDirty w = false ->
    snd (run qt calls w) = [].
Proof.
  induction calls as [|c calls IH]; intros w Hquiet Htex Hdirty; cbn [run];
    [reflexivity|].
  cbn [forallb] in Hquiet. apply andb_true_iff in Hquiet as [Hc Hrest].
  destruct (step_blank qt c w Hc Htex Hdirty) as (Hout & Htex1 & Hdirty1).
  destruct (step qt c w) as [w1 out1]; cbn [fst snd] in *.
  specialize (IH w1 Hrest Htex1 Hdirty1).
  destruct (run qt calls w1) as [w2 out2]; cbn [fst snd] in *.
  rewrite Hout, IH. reflexivity.
Qed.

(** After the OpenGL context is lost or initialised anew the texture is
    gone and nothing marks it for upload: until the next frame arrives no
    paint pass draws or emits anything, whatever image the widget holds
    and even when the program links again. *)
Theorem nothing_is_drawn_after_context_loss
    (qt : QtImaging) (env : GLEnv) (w : Widget) (calls : list Call) :
  m_textureDirty w = false ->
  forallb betweenArrivals calls = true ->
  snd (run qt calls (handleContextAboutToBeDestroyed true w)) = [] /\
  snd (run qt calls (initializeGL env w)) = [].
Proof.
  intros Hdirty Hquiet. split.
  - apply run_blank; [exact Hquiet | reflexivity | exact Hdirty].
  - apply run_blank; [exact Hquiet | |];
      unfold initializeGL; rewrite ensureGeometry_eq, ensureProgram_eq;
      [reflexivity | exact Hdirty].
Qed.

Lemma nothing_is_drawn_after_context_loss_witness :
  snd (run qtIdentity [passWith true true; CallSetFilter FilterType.Invert;
                       passWith true true]
           (handleContextAboutToBeDestroyed true widgetAfterFirstFrame)) = [] /\
  snd (run qtIdentity [passWith true true; CallSetFilter FilterType.Invert;
                       passWith true true]
           (initializeGL (mkGLEnv true true (mkSize 640 480) (scaledSize 1))
                         widgetAfterFirstFrame)) = [].
Proof.
  apply (nothing_is_drawn_after_context_loss qtIdentity); reflexivity.
Defined.

Lemma drawCalls_app (out1 out2 : list Effect) :
  drawCalls (out1 ++ out2) = drawCalls out1 ++ drawCalls out2.
Proof. unfold drawCalls. apply flat_map_app. Qed.

Lemma paintGL_draws (env : GLEnv) (w : Widget) :
  Forall (fun d => dc_filter d = FilterType.toInt (m_filterType w) /\
                   dc_strength d = m_filterStrength w)
         (drawCalls (snd (paintGL env w))).
Proof.
  unfold paintGL, ensureFramebuffer, uploadTextureIfNeeded, ensureGeometry,
    ensureProgram, renderToCurrentTarget, drawn.
  repeat match goal with
         | |- context [if ?b then _ else _] => destruct b; cbn
         | |- context [match m_framebuffer ?x with _ => _ end] =>
             destruct (m_framebuffer x); cbn
         | |- context [match m_texture ?x with _ => _ end] =>
             destruct (m_texture x); cbn
         end; repeat constructor.
Qed.

Lemma filter_index_range (type : FilterType.t) : 0 <= FilterType.toInt type <= 5.
Proof. destruct type; cbn; lia. Qed.

Lemma step_draws (qt : QtImaging) (c : Call) (w : Widget) :
  strengthClamped w ->
  Forall (fun d => inUnitInterval (dc_strength d) /\ 0 <= dc_filter d <= 5)
         (drawCalls (snd (step qt c w))).
Proof.
  intros Hw. destruct c; cbn [step snd drawCalls flat_map]; try constructor.
  eapply Forall_impl; [apply paintGL_draws|].
  intros d [-> ->]. split; [exact Hw | apply filter_index_range].
Qed.

(** Every draw, offscreen or on screen, over every sequence of calls made
    on a new widget, passes a strength of [0, 1] and a filter index of
    0..5 to the fragment stage: the strength uniform never needs the
    shader's own clamp. *)
Theorem draws_pass_clamped_uniforms (qt : QtImaging) (calls : list Call) :
  Forall (fun d => inUnitInterval (dc_strength d) /\ 0 <= dc_filter d <= 5)
         (drawCalls (snd (run qt calls newWidget))).
Proof.
  assert (Hall : forall w, strengthClamped w ->
             Forall (fun d => inUnitInterval (dc_strength d) /\ 0 <= dc_filter d <= 5)
                    (drawCalls (snd (run qt calls w)))).
  { induction calls as [|c calls IH]; intros w Hw; cbn [run]; [constructor|].
    pose proof (step_draws qt c w Hw) as Hdraws.
    pose proof (step_strengthClamped qt c w Hw) as Hnext.
    destruct (step qt c w) as [w1 out1]; cbn [fst snd] in *.
    specialize (IH w1 Hnext). destruct (run qt calls w1) as [w2 out2]; cbn [fst snd] in *.
    rewrite drawCalls_app. apply Forall_app. split; assumption. }
  apply Hall. split; reflexivity.
Qed.

Lemma uploadTextureIfNeeded_matches (w : Widget) :
  isNull (m_currentImage w) = false -> textureMatchesImage w ->
  let w' := uploadTextureIfNeeded w in
  textureMatchesImage w' /\ m_textureDirty w' = false /\
  m_currentImage w' = m_currentImage w.
Proof.
  intros Hnull Hinv; cbv zeta. unfold uploadTextureIfNeeded.
  rewrite Hnull, orb_false_r.
  destruct (m_textureDirty w) eqn:Hdirty; cbn [negb].
  - split; [|split; reflexivity].
    unfold textureMatchesImage; cbn. intros _ t [= <-].
    destruct (m_texture w) as [[created tw th]|]; cbn; [|reflexivity].
    destruct created; cbn; [|reflexivity].
    destruct (Z.eqb_spec tw (img_width (m_currentImage w))); cbn; [|reflexivity].
    destruct (Z.eqb_spec th (img_height (m_currentImage w))); cbn; [|reflexivity].
    congruence.
  - auto.
Qed.

(** A paint pass keeps the texture in step with the image, and a pass
    that draws or emits ends with the texture uploaded and created at the
    image's size. *)
Lemma paintGL_texture (env : GLEnv) (w : Widget) :
  textureMatchesImage w ->
  textureMatchesImage (fst (paintGL env w)) /\
  (snd (paintGL env w) <> [] ->
   m_textureDirty (fst (paintGL env w)) = false /\
   m_texture (fst (paintGL env w))
   = Some (mkTexture true (img_width (m_currentImage w))
                     (img_height (m_currentImage w)))).
Proof.
  intros Hinv. unfold paintGL.
  destruct (isNull (m_currentImage w)) eqn:Hnull; [split; [exact Hinv | intros []; reflexivity]|].
  rewrite ensureProgram_eq, ensureGeometry_eq.
  set (w1 := with_geometryInitialized true (with_program _ w)).
  destruct (uploadTextureIfNeeded_matches w1) as (Hinv2 & Hdirty2 & Himg2);
    [exact Hnull | exact Hinv |].
  set (w2 := uploadTextureIfNeeded w1) in *.
  change (m_currentImage w1) with (m_currentImage w) in Himg2.
  destruct (negb (m_program w2) || negb (isSome (m_texture w2))) eqn:Hguard;
    [split; [exact Hinv2 | intros []; reflexivity]|].
  apply orb_false_iff in Hguard as [_ Htex]. apply negb_false_iff in Htex.
  destruct (m_texture w2) as [t|] eqn:Ht; [|discriminate Htex].
  pose proof (Hinv2 Hdirty2 t Ht) as Hshape. rewrite Himg2 in Hshape.
  destruct (ensureFramebuffer_eq env (img_size (m_currentImage w2)) w2)
    as (fb & -> & _); [rewrite Himg2; exact Hnull|].
  assert (Hkeep : forall w3,
             m_texture w3 = m_texture w2 -> m_textureDirty w3 = m_textureDirty w2 ->
             m_currentImage w3 = m_currentImage w2 ->
             textureMatchesImage w3 /\
             m_textureDirty w3 = false /\ m_texture w3 = Some (mkTexture true
               (img_width (m_currentImage w)) (img_height (m_currentImage w)))).
  { intros w3 E1 E2 E3. split; [|split; congruence].
    unfold textureMatchesImage in *. rewrite E1, E2, E3. exact Hinv2. }
  destruct (m_emitPending (with_framebuffer fb w2) && isSome _); cbn [fst snd];
    match goal with
    | |- textureMatchesImage ?w3 /\ _ =>
        destruct (Hkeep w3 eq_refl eq_refl eq_refl) as (K1 & K2 & K3)
    end; auto.
Qed.

Lemma step_texture (qt : QtImaging) (c : Call) (w : Widget) :
  textureMatchesImage w -> textureMatchesImage (fst (step qt c w)).
Proof.
  intros Hinv. destruct c; cbn [step fst].
  - unfold setFilter. destruct (FilterType.eqb _ _); exact Hinv.
  - unfold setFilterStrength. destruct (qFuzzyCompare _ _); exact Hinv.
  - unfold updateVideoFrame.
    destruct (negb _); [exact Hinv|]. destruct (isNull _); [exact Hinv|].
    unfold textureMatchesImage; cbn. intros H; discriminate H.
  - unfold initializeGL. rewrite ensureGeometry_eq, ensureProgram_eq.
    unfold textureMatchesImage; cbn. intros _ t H; discriminate H.
  - exact Hinv.
  - apply paintGL_texture. exact Hinv.
  - unfold handleContextAboutToBeDestroyed. destruct (negb _); [exact Hinv|].
    unfold textureMatchesImage; cbn. intros _ t H; discriminate H.
Qed.

Lemma run_texture (qt : QtImaging) (calls : list Call) :
  forall w, textureMatchesImage w -> textureMatchesImage (fst (run qt calls w)).
Proof.
  induction calls as [|c calls IH]; intros w Hw; cbn [run]; [exact Hw|].
  pose proof (step_texture qt c w Hw) as Hstep.
  destruct (step qt c w) as [w1 out1]. cbn [fst] in Hstep.
  specialize (IH w1 Hstep). destruct (run qt calls w1) as [w2 out2]. exact IH.
Qed.

(** Whatever calls a new widget has seen, a paint pass that draws or
    emits anything has the texture uploaded and created at exactly the
    size of the current image: no draw samples a texture of another
    frame's size. *)
Theorem drawing_pass_has_texture_of_image_size
    (qt : QtImaging) (calls : list Call) (env : GLEnv) :
  let w := fst (run qt calls newWidget) in
  snd (paintGL env w) <> [] ->
  m_textureDirty (fst (paintGL env w)) = false /\
  m_texture (fst (paintGL env w))
  = Some (mkTexture true (img_width (m_currentImage w)) (img_height (m_currentImage w))).
Proof.
  cbv zeta. apply paintGL_texture. apply run_texture.
  unfold textureMatchesImage; cbn. intros _ t H; discriminate H.
Qed.

Lemma drawing_pass_has_texture_of_image_size_witness :
  let env := mkGLEnv true true (mkSize 640 480) (scaledSize 1) in
  let w := fst (run qtIdentity [CallUpdateVideoFrame (rgbaFrame 4 2)] newWidget) in
  m_textureDirty (fst (paintGL env w)) = false /\
  m_texture (fst (paintGL env w))
  = Some (mkTexture true (img_width (m_currentImage w)) (img_height (m_currentImage w))).
Proof.
  apply (drawing_pass_has_texture_of_image_size
           qtIdentity [CallUpdateVideoFrame (rgbaFrame 4 2)]
           (mkGLEnv true true (mkSize 640 480) (scaledSize 1))).
  vm_compute. discriminate.
Defined.


(* ================================================================= *)
(** * Further properties of the device session *)

Local Open Scope cam_scope.

Lemma trackAll_app (held : option Z) (events1 events2 : list Event) :
  trackAll held (events1 ++ events2)
  = match trackAll held events1 with
    | Some held' => trackAll held' events2
    | None => None
    end.
Proof.
  revert held. induction events1 as [|e events1 IH]; intros held; cbn [app trackAll];
    [reflexivity|].
  destruct (trackEvent held e); [apply IH | reflexivity].
Qed.

Ltac cam_unfold :=
  unfold sessionOk, effects, perform, setDevicePath, setForcedResolution, setEnabled,
    onProcessedFrameReady, openDevice, openDevice_configure, writeFrame,
    configureFormat, closeDevice, bind, this, update, ret, sys_open, sys_close,
    sys_setFormat, sys_write, emitError, record, heldBy in *.

Ltac cam_reduce :=
  cbn [cam history fst snd negb orb andb
       set_fd set_enabled set_deviceConfigured set_frameSize set_forcedResolution
       set_devicePath m_fd m_devicePath m_enabled m_deviceConfigured
       m_frameWidth m_frameHeight m_forcedResolution] in *.

Ltac cam_norm := cam_reduce; repeat rewrite <- app_assoc; cbn [app].

Ltac cam_split :=
  cam_norm;
  repeat (match goal with
          | |- context [match prepareFrame ?qt ?forced ?frame with _ => _ end] =>
              destruct (prepareFrame qt forced frame) eqn:?
          | |- context [if negb ?b then _ else _] => destruct b eqn:?
          | |- context [if ?b then _ else _] => destruct b eqn:?
          | |- context [convertRgbToYuyv ?image ?buffer] =>
              destruct (convertRgbToYuyv image buffer) as [? ?] eqn:?
          end; cam_norm).

Ltac eqb_facts :=
  repeat match goal with
         | H : (_ =? _) = false |- _ => apply Z.eqb_neq in H
         | H : (_ =? _) = true |- _ => apply Z.eqb_eq in H
         end.

Ltac track_leaf :=
  rewrite ?trackAll_app;
  repeat first
    [ match goal with H : trackAll None _ = _ |- _ => rewrite H end
    | rewrite Z.eqb_refl
    | match goal with H : ?c = _ |- context [if ?c then _ else _] => rewrite H end
    | progress cbn [trackAll trackEvent] ];
  try reflexivity.

Ltac state_leaf :=
  intros; eqb_facts; subst;
  repeat match goal with
         | H : ?a = ?a -> _ |- _ => specialize (H eq_refl)
         | H : isEmpty ?x = false |- ?x <> EmptyString =>
             let E := fresh in intros E; rewrite E in H; discriminate H
         end;
  try contradiction; try congruence; try discriminate; intuition congruence.

Ltac cam_leaf :=
  first [ solve [exfalso; eqb_facts; congruence]
        | split; [track_leaf | split; [state_leaf | state_leaf]] ].

Lemma closeDevice_ok (s : Session) : sessionOk s -> sessionOk (snd (closeDevice s)).
Proof.
  destruct s as [[fd path enabled configured fw fh forced] past].
  cam_unfold. cam_reduce. intros (Htrack & Hstate & Hpath).
  cam_split; cam_leaf.
Qed.

Lemma openDevice_ok (k : Kernel) (width height : Z) (s : Session) :
  sessionOk s ->
  sessionOk (snd (openDevice k width height s)) /\
  (fst (openDevice k width height s) = true ->
   m_fd (cam (snd (openDevice k width height s))) <> -1).
Proof.
  destruct s as [[fd path enabled configured fw fh forced] past].
  cam_unfold. cam_reduce. intros (Htrack & Hstate & Hpath).
  cam_split; (split; [cam_leaf | state_leaf]).
Qed.

Lemma onProcessedFrameReady_ok (qt : QtImaging) (k : Kernel) (frame : QImage)
    (s : Session) :
  sessionOk s -> sessionOk (snd (onProcessedFrameReady qt k frame s)).
Proof.
  destruct s as [[fd path enabled configured fw fh forced] past].
  cam_unfold. cam_reduce. intros (Htrack & Hstate & Hpath).
  cam_split; cam_leaf.
Qed.

Lemma setEnabled_ok (enabled : bool) (s : Session) :
  sessionOk s -> sessionOk (snd (setEnabled enabled s)).
Proof.
  destruct s as [[fd path en configured fw fh forced] past].
  cam_unfold. cam_reduce. intros (Htrack & Hstate & Hpath).
  cam_split; cam_leaf.
Qed.

Lemma setForcedResolution_ok (resolution : QSize) (s : Session) :
  sessionOk s -> sessionOk (snd (setForcedResolution resolution s)).
Proof.
  destruct s as [[fd path en configured fw fh forced] past].
  cam_unfold. cam_reduce. intros (Htrack & Hstate & Hpath).
  cam_split; cam_leaf.
Qed.

Lemma setDevicePath_ok (trimmed : string -> string) (path : string) (s : Session) :
  sessionOk s -> sessionOk (snd (setDevicePath trimmed path s)).
Proof.
  destruct s as [[fd path0 en configured fw fh forced] past].
  cam_unfold. cam_reduce. intros (Htrack & Hstate & Hpath).
  cam_split; cam_leaf.
Qed.

Lemma perform_ok (trimmed : string -> string) (qt : QtImaging) (k : Kernel)
    (call : StreamerCall) (s : Session) :
  sessionOk s -> sessionOk (snd (perform trimmed qt k call s)).
Proof.
  destruct call; cbn [perform];
    auto using setDevicePath_ok, setEnabled_ok, setForcedResolution_ok,
      onProcessedFrameReady_ok.
Qed.

Lemma drive_ok (trimmed : string -> string) (qt : QtImaging) (k : Kernel)
    (calls : list StreamerCall) :
  forall s, sessionOk s -> sessionOk (drive trimmed qt k calls s).
Proof.
  induction calls as [|call calls IH]; intros s Hs; cbn [drive]; [exact Hs|].
  apply IH, perform_ok, Hs.
Qed.

Lemma newSession_ok : sessionOk (mkSession newStreamer []).
Proof. repeat split; discriminate. Qed.

Ltac cam_effects :=
  repeat rewrite <- app_assoc; cbn [app]; rewrite ?drop_app_length, ?drop_all.

Ltac cam_done :=
  first [ solve [exfalso; eqb_facts; congruence]
        | repeat split; cam_effects; eqb_facts; subst;
          try reflexivity; try congruence; auto ].

(** Whatever public calls a new streamer receives and whatever the kernel
    answers, the system calls it makes respect the discipline of a single
    descriptor: it opens only while it holds none, it closes, configures
    and writes only the descriptor it holds, and the descriptor recorded
    in [m_fd] is the one still open (none when [m_fd] is -1).  No
    descriptor leaks and none is closed twice. *)
Theorem descriptor_discipline
    (trimmed : string -> string) (qt : QtImaging) (k : Kernel)
    (calls : list StreamerCall) :
  let s := drive trimmed qt k calls (mkSession newStreamer []) in
  trackAll None (history s) = Some (heldBy (cam s)).
Proof. apply (drive_ok trimmed qt k calls _ newSession_ok). Qed.

(** After any sequence of public calls on a new streamer: when the device
    is closed it is marked unconfigured with the recorded size 0x0, a
    configured device is always open, and the device path is never the
    empty string. *)
Theorem closed_streamer_is_unconfigured
    (trimmed : string -> string) (qt : QtImaging) (k : Kernel)
    (calls : list StreamerCall) :
  let c := cam (drive trimmed qt k calls (mkSession newStreamer [])) in
  (m_fd c = -1 ->
   m_deviceConfigured c = false /\ m_frameWidth c = 0 /\ m_frameHeight c = 0) /\
  (m_deviceConfigured c = true -> m_fd c <> -1) /\
  m_devicePath c <> EmptyString.
Proof.
  cbv zeta.
  destruct (drive_ok trimmed qt k calls _ newSession_ok) as (_ & Hstate & Hpath).
  split; [exact Hstate|]. split; [|exact Hpath].
  intros Hconf Hfd. destruct (Hstate Hfd) as [Hno _]. congruence.
Qed.

Lemma closed_streamer_is_unconfigured_witness :
  m_deviceConfigured
    (cam (drive (fun p => p) qtIdentity shortFirstWrite
            [DoSetEnabled true; DoProcessedFrame pairFrame2x1]
            (mkSession newStreamer []))) = false.
Proof.
  apply (closed_streamer_is_unconfigured (fun p => p) qtIdentity shortFirstWrite
           [DoSetEnabled true; DoProcessedFrame pairFrame2x1]).
  reflexivity.
Defined.

(** An enabled, closed streamer that receives a usable frame while
    [open] fails makes exactly that one [open], reports it once through
    [errorOccurred], and switches itself off: every later frame is
    dropped without any system call until [setEnabled(true)] is called
    again. *)
Theorem failed_open_disables_streamer
    (qt : QtImaging) (k : Kernel) (frame image : QImage) (s : Session) :
  m_enabled (cam s) = true -> m_fd (cam s) = -1 ->
  prepareFrame qt (m_forcedResolution (cam s)) frame = Some image ->
  k_open k (history s) (m_devicePath (cam s)) = -1 ->
  let path := m_devicePath (cam s) in
  let s' := snd (onProcessedFrameReady qt k frame s) in
  effects (onProcessedFrameReady qt k frame) s
  = [SysOpen path (-1); ErrorOccurred (CannotOpenDevice path)] /\
  m_enabled (cam s') = false /\ m_fd (cam s') = -1 /\
  forall frame' : QImage, onProcessedFrameReady qt k frame' s' = (tt, s').
Proof.
  destruct s as [[fd path enabled configured fw fh forced] past]; cam_reduce.
  intros -> -> Hprep Hopen; cbv zeta.
  cam_unfold. cam_norm. rewrite Hprep. cam_norm.
  change (-1 =? -1) with true. cam_norm. rewrite Hopen.
  change (-1 =? -1) with true. cam_norm.
  cam_effects. auto.
Qed.

Lemma failed_open_disables_streamer_witness :
  effects (onProcessedFrameReady qtIdentity noDevice pairFrame2x1) enabledSession
  = [SysOpen kDefaultDevicePath (-1);
     ErrorOccurred (CannotOpenDevice kDefaultDevicePath)] /\
  m_enabled (cam (snd (onProcessedFrameReady qtIdentity noDevice pairFrame2x1
                         enabledSession))) = false.
Proof.
  destruct (failed_open_disables_streamer qtIdentity noDevice pairFrame2x1 pairFrame2x1
              enabledSession) as (Heffects & Hdisabled & _);
    [reflexivity | reflexivity | reflexivity | reflexivity |].
  split; [exact Heffects | exact Hdisabled].
Defined.

Lemma convert_positive_succeeds (image : QImage) (buffer : QByteArray) :
  0 < img_width image -> 0 < img_height image ->
  fst (convertRgbToYuyv image buffer) = true.
Proof.
  intros Hw Hh. unfold convertRgbToYuyv.
  destruct (Z.leb_spec (img_width image) 0); [lia|].
  destruct (Z.leb_spec (img_height image) 0); [lia|]. reflexivity.
Qed.

(** The steady state: on an enabled streamer whose device is open and
    configured for the size of the prepared frame, a frame costs exactly
    one [write] of the converted buffer and, when the kernel takes all of
    it, leaves every member unchanged; the device is neither reopened nor
    reconfigured. *)
Theorem configured_session_only_writes
    (qt : QtImaging) (k : Kernel) (frame image : QImage) (s : Session) :
  m_enabled (cam s) = true -> m_fd (cam s) <> -1 ->
  m_deviceConfigured (cam s) = true ->
  prepareFrame qt (m_forcedResolution (cam s)) frame = Some image ->
  m_frameWidth (cam s) = img_width image ->
  m_frameHeight (cam s) = img_height image ->
  0 < img_width image -> 0 < img_height image ->
  let data := om_bytes (snd (convertRgbToYuyv image [])) in
  k_write k (history s) (m_fd (cam s)) data = Z.of_nat (length data) ->
  onProcessedFrameReady qt k frame s
  = (tt, mkSession (cam s)
           (history s ++ [SysWrite (m_fd (cam s)) data (Z.of_nat (length data))])).
Proof.
  destruct s as [[fd path enabled configured fw fh forced] past]; cam_reduce.
  intros -> Hfd -> Hprep -> -> Hw Hh; cbv zeta. intros Hwrite.
  pose proof (convert_positive_succeeds image [] Hw Hh) as Hconv.
  apply Z.eqb_neq in Hfd.
  cam_unfold. cam_norm. rewrite Hprep. cam_norm.
  rewrite Hfd. cam_norm. rewrite !Z.eqb_refl. cam_norm. rewrite Hfd. cam_norm.
  destruct (convertRgbToYuyv image []) as [converted mem]; cbn [fst snd] in *.
  subst converted. cam_norm. rewrite Hwrite, Z.eqb_refl. cam_norm. reflexivity.
Qed.

Lemma configured_session_only_writes_witness :
  effects (onProcessedFrameReady qtIdentity healthyDevice pairFrame2x1) streamingSession
  = [SysWrite 3 (om_bytes (snd (convertRgbToYuyv pairFrame2x1 []))) 4].
Proof.
  unfold effects.
  rewrite (configured_session_only_writes qtIdentity healthyDevice pairFrame2x1
             pairFrame2x1 streamingSession);
    [reflexivity | reflexivity | vm_compute; lia | reflexivity | reflexivity
    | reflexivity | reflexivity | reflexivity | reflexivity | reflexivity].
Defined.

(** When the frame size differs from the configured one, [openDevice]
    closes the open descriptor, opens the path again and requests the new
    format on the new descriptor, in this order; on success the streamer
    holds the new descriptor, configured for the new size. *)
Theorem size_change_reopens_device (k : Kernel) (s : Session) (width height : Z) :
  let c := cam s in
  let path := m_devicePath c in
  let fd' := k_open k (history s ++ [SysClose (m_fd c)]) path in
  m_fd c <> -1 ->
  width <> m_frameWidth c \/ height <> m_frameHeight c ->
  fd' <> -1 ->
  k_setFormat k (history s ++ [SysClose (m_fd c); SysOpen path fd']) fd' width height
  = true ->
  fst (openDevice k width height s) = true /\
  effects (openDevice k width height) s
  = [SysClose (m_fd c); SysOpen path fd'; SysSetFormat fd' width height true] /\
  let c' := cam (snd (openDevice k width height s)) in
  m_fd c' = fd' /\ m_deviceConfigured c' = true /\
  m_frameWidth c' = width /\ m_frameHeight c' = height.
Proof.
  destruct s as [[fd path enabled configured fw fh forced] past]; cam_reduce.
  cbv zeta. intros Hfd Hsize Hfd' Hfmt.
  assert (Hchanged : negb (width =? fw) || negb (height =? fh) = true).
  { destruct (Z.eqb_spec width fw), (Z.eqb_spec height fh); cbn; try reflexivity; lia. }
  apply Z.eqb_neq in Hfd, Hfd'.
  cam_unfold. cam_norm. rewrite Hfd. cam_norm.
  rewrite Hchanged, orb_true_r. cam_norm. rewrite Hfd. cam_norm.
  rewrite Hfd'. cam_norm. rewrite Hfd'. cam_norm. rewrite Hfmt. cam_norm.
  cam_effects. auto 10.
Qed.

Lemma size_change_reopens_device_witness :
  effects (openDevice healthyDevice 4 2) streamingSession
  = [SysClose 3; SysOpen kDefaultDevicePath 3; SysSetFormat 3 4 2 true].
Proof.
  apply (size_change_reopens_device healthyDevice streamingSession 4 2);
    [vm_compute; lia | left; vm_compute; lia | vm_compute; lia | reflexivity].
Defined.

(** [openDevice] has two outcomes only, from any state.  It returns true
    with the device open and configured for exactly the requested size,
    the enabled flag untouched; or it returns false with the device closed
    and the streamer disabled. *)
Theorem openDevice_leaves_ready_or_closed (k : Kernel) (s : Session) (width height : Z) :
  let ok := fst (openDevice k width height s) in
  let c' := cam (snd (openDevice k width height s)) in
  (ok = true ->
   m_fd c' <> -1 /\ m_deviceConfigured c' = true /\
   m_frameWidth c' = width /\ m_frameHeight c' = height /\
   m_enabled c' = m_enabled (cam s)) /\
  (ok = false ->
   m_fd c' = -1 /\ m_enabled c' = false).
Proof.
  destruct s as [[fd path enabled configured fw fh forced] past]; cbv zeta.
  cam_unfold. cam_split;
    (split; intros Hok; try discriminate Hok; eqb_facts;
     repeat match goal with
            | H : _ || _ = false |- _ => apply orb_false_iff in H as [? ?]
            | H : negb _ = false |- _ => apply negb_false_iff in H
            end; eqb_facts; subst; repeat split; try congruence; auto).
Qed.

Lemma openDevice_leaves_ready_or_closed_witness :
  m_enabled (cam (snd (openDevice refusesFormat 2 1 enabledSession))) = false.
Proof.
  apply (openDevice_leaves_ready_or_closed refusesFormat enabledSession 2 1).
  reflexivity.
Defined.

(** [setEnabled(true)] makes no system call and leaves the descriptor as
    it is: the device is opened by the next frame only.  [setEnabled(false)]
    on an enabled streamer closes the descriptor if one is open, with that
    single [close], and leaves the device closed and unconfigured. *)
Theorem enabling_is_lazy_disabling_closes (s : Session) :
  (effects (setEnabled true) s = [] /\
   m_fd (cam (snd (setEnabled true s))) = m_fd (cam s)) /\
  (m_enabled (cam s) = true ->
   let s' := snd (setEnabled false s) in
   m_enabled (cam s') = false /\ m_fd (cam s') = -1 /\
   m_deviceConfigured (cam s') = false /\
   effects (setEnabled false) s
   = if m_fd (cam s) =? -1 then [] else [SysClose (m_fd (cam s))]).
Proof.
  destruct s as [[fd path enabled configured fw fh forced] past]; cam_reduce.
  split.
  - cam_unfold. cam_split; cam_done.
  - intros ->; cbv zeta. cam_unfold. cam_reduce. cbn [Bool.eqb]. cam_split; cam_done.
Qed.

Lemma enabling_is_lazy_disabling_closes_witness :
  effects (setEnabled false) streamingSession = [SysClose 3].
Proof.
  apply (enabling_is_lazy_disabling_closes streamingSession). reflexivity.
Defined.

(** [setDevicePath] stores the trimmed path, or the default path when the
    trimmed path is empty.  A call that does not change the stored path
    changes nothing; a call that changes it leaves the device closed and
    unconfigured, closing the open descriptor with a single [close], so
    that the next frame opens the new path. *)
Theorem device_path_change_closes_device
    (trimmed : string -> string) (path : string) (s : Session) :
  let normalized :=
    if isEmpty (trimmed path) then kDefaultDevicePath else trimmed path in
  let s' := snd (setDevicePath trimmed path s) in
  m_devicePath (cam s') = normalized /\
  (normalized = m_devicePath (cam s) -> s' = s) /\
  (normalized <> m_devicePath (cam s) ->
   m_fd (cam s') = -1 /\ m_deviceConfigured (cam s') = false /\
   effects (setDevicePath trimmed path) s
   = if m_fd (cam s) =? -1 then [] else [SysClose (m_fd (cam s))]).
Proof.
  destruct s as [[fd old enabled configured fw fh forced] past]; cbv zeta.
  unfold setDevicePath, effects, bind, this. cam_reduce.
  set (normalized := if isEmpty (trimmed path) then kDefaultDevicePath else trimmed path).
  destruct (String.eqb_spec normalized old) as [Heq|Hneq].
  - cbn [ret snd cam m_devicePath]. split; [congruence|]. split; [reflexivity|].
    intros Hne; contradiction.
  - split; [|split].
    + cam_unfold. cam_split; reflexivity.
    + intros Heq; contradiction.
    + intros _. cam_unfold. cam_split; cam_done.
Qed.

Lemma device_path_change_closes_device_witness :
  effects (setDevicePath (fun p => p) "/dev/video9") streamingSession = [SysClose 3].
Proof.
  apply (device_path_change_closes_device (fun p => p) "/dev/video9" streamingSession).
  vm_compute. discriminate.
Defined.

Lemma prepareFrame_not_null (qt : QtImaging) (forced : QSize) (frame image : QImage) :
  prepareFrame qt forced frame = Some image -> isNull image = false.
Proof.
  unfold prepareFrame. intros H.
  repeat match type of H with
         | None = Some _ => discriminate H
         | Some _ = Some _ => injection H as <-
         | context [match ?x with _ => _ end] => destruct x eqn:?
         end; try discriminate; try assumption.
Qed.

Lemma prepared_frame_converts
    (qt : QtImaging) (forced : QSize) (frame image : QImage) (buffer : QByteArray) :
  prepareFrame qt forced frame = Some image ->
  fst (convertRgbToYuyv image buffer) = true.
Proof.
  intros H. apply prepareFrame_not_null in H. unfold isNull in H.
  apply orb_false_iff in H as [Hw Hh].
  apply Z.leb_gt in Hw, Hh. apply convert_positive_succeeds; assumption.
Qed.

Ltac in_effects H :=
  cbn [In] in H;
  repeat match type of H with
         | _ \/ _ => destruct H as [H|H]
         | False => contradiction
         | ErrorOccurred _ = ErrorOccurred _ => injection H as <-
         | _ = _ => discriminate H
         end.

(** Whenever a public call reports an error through [errorOccurred], it
    ends with the device closed.  The error is never the conversion
    failure, whose branch in [writeFrame] cannot be reached from
    [onProcessedFrameReady]; after a failed write the streamer stays
    enabled, after a failed open or format request it is disabled. *)
Theorem error_leaves_device_closed
    (trimmed : string -> string) (qt : QtImaging) (k : Kernel)
    (call : StreamerCall) (s : Session) (msg : ErrorMessage) :
  In (ErrorOccurred msg) (effects (perform trimmed qt k call) s) ->
  let c' := cam (snd (perform trimmed qt k call s)) in
  m_fd c' = -1 /\
  msg <> FailedToConvertFrame /\
  m_enabled c' = match msg with FailedToWriteFrame => true | _ => false end.
Proof.
  destruct s as [[fd path enabled configured fw fh forced] past]; cbv zeta.
  destruct call as [newPath|flag|resolution|frame]; cam_unfold; cam_reduce.
  - cam_split; cam_effects; intros HIn; in_effects HIn.
  - cam_split; cam_effects; intros HIn; in_effects HIn.
  - cam_split; cam_effects; intros HIn; in_effects HIn.
  - cam_split; cam_effects; intros HIn; in_effects HIn;
      try (split; [reflexivity | split; [discriminate | reflexivity]]).
    all: try match goal with
         | Hp : prepareFrame _ _ _ = Some ?image,
           Hc : convertRgbToYuyv ?image [] = (false, _) |- _ =>
             pose proof (prepared_frame_converts _ _ _ _ [] Hp) as Hconv;
             rewrite Hc in Hconv; discriminate Hconv
         end.
    all: eqb_facts;
      first [congruence | split; [congruence | split; [discriminate | reflexivity]]].
Qed.

Lemma error_leaves_device_closed_witness :
  m_fd (cam (snd (perform (fun p => p) qtIdentity noDevice
                    (DoProcessedFrame pairFrame2x1) enabledSession))) = -1.
Proof.
  apply (error_leaves_device_closed (fun p => p) qtIdentity noDevice
           (DoProcessedFrame pairFrame2x1) enabledSession
           (CannotOpenDevice kDefaultDevicePath)).
  vm_compute. right. left. reflexivity.
Defined.

Lemma format_eqb_eq (a b : Format) : format_eqb a b = true -> a = b.
Proof. destruct a, b; cbn; congruence. Qed.

(** Provided [QImage::convertToFormat] returns a null image or one of the
    same size in the requested format, and [QImage::scaled] with
    [Qt::IgnoreAspectRatio] returns a null image or one of the requested
    size: the image handed to the device is RGB888 and has exactly the
    forced resolution when one is set, and the size of the incoming frame
    otherwise. *)
Theorem prepared_frame_has_target_size
    (qt : QtImaging) (forced : QSize) (frame image : QImage) :
  (forall (img : QImage) (format : Format),
      isNull (convertToFormat qt img format) = true \/
      (img_size (convertToFormat qt img format) = img_size img /\
       img_format (convertToFormat qt img format) = format)) ->
  (forall (img : QImage) (size : QSize),
      isNull (scaled qt img size IgnoreAspectRatio) = true \/
      img_size (scaled qt img size IgnoreAspectRatio) = size) ->
  prepareFrame qt forced frame = Some image ->
  img_format image = Format_RGB888 /\
  img_size image = (if size_isValid forced then forced else img_size frame).
Proof.
  intros Hconv Hscaled. unfold prepareFrame. cbv zeta.
  repeat match goal with
         | |- context [match ?x with _ => _ end] => destruct x eqn:?
         end;
    intros H; try discriminate H; injection H as <-;
    repeat match goal with
           | H : None = Some _ |- _ => discriminate H
           | H : Some (_, _) = Some (_, _) |- _ => injection H as <- <-
           | H : Some _ = Some _ |- _ => injection H as <-
           | H : _ = (_, _) |- _ => injection H as <- <-
           | H : context [match ?x with _ => _ end] |- _ => destruct x eqn:?
           | H : negb _ = false |- _ => apply negb_false_iff in H
           | H : negb _ = true |- _ => apply negb_true_iff in H
           | H : size_eqb _ _ = true |- _ => apply size_eqb_eq in H
           | H : format_eqb _ _ = true |- _ => apply format_eqb_eq in H
           | H : isNull (convertToFormat qt ?a ?f) = false |- _ =>
               destruct (Hconv a f) as [E|[? ?]]; [rewrite E in H; discriminate H|];
               clear H
           | H : isNull (scaled qt ?a ?sz IgnoreAspectRatio) = false |- _ =>
               destruct (Hscaled a sz) as [E|?]; [rewrite E in H; discriminate H|];
               clear H
           end;
    try discriminate; try (split; congruence).
Qed.

Lemma prepared_frame_has_target_size_witness :
  prepareFrame qtResizing (mkSize 640 480) (blankImage 1920 1080 Format_RGBA8888)
  = Some (blankImage 640 480 Format_RGB888) /\
  img_size (blankImage 640 480 Format_RGB888) = mkSize 640 480.
Proof.
  split; [reflexivity|].
  apply (prepared_frame_has_target_size qtResizing (mkSize 640 480)
           (blankImage 1920 1080 Format_RGBA8888) (blankImage 640 480 Format_RGB888)).
  - intros img format. right. split; reflexivity.
  - intros img [width height]. right. reflexivity.
  - reflexivity.
Defined.

Lemma prepareFrame_empty_target (qt : QtImaging) (forced : QSize) (frame : QImage) :
  size_isValid forced = true -> size_isEmpty forced = true ->
  prepareFrame qt forced frame = None.
Proof.
  intros Hvalid Hempty. unfold prepareFrame, size_isEmpty in *. cbv zeta.
  rewrite Hvalid, Hempty.
  repeat match goal with
         | |- context [match ?x with _ => _ end] => destruct x eqn:?
         end; reflexivity.
Qed.

(** A forced resolution that [QSize::isValid] accepts but that has a zero
    dimension, such as 0x0, silences the streamer: every frame is dropped
    before the device is touched, without any error being reported. *)
Theorem empty_forced_resolution_silences
    (qt : QtImaging) (k : Kernel) (frame : QImage) (s : Session) :
  size_isValid (m_forcedResolution (cam s)) = true ->
  size_isEmpty (m_forcedResolution (cam s)) = true ->
  onProcessedFrameReady qt k frame s = (tt, s).
Proof.
  intros Hvalid Hempty. unfold onProcessedFrameReady, bind, this, ret.
  rewrite (prepareFrame_empty_target qt _ frame Hvalid Hempty).
  destruct (negb _); reflexivity.
Qed.

Lemma empty_forced_resolution_silences_witness :
  onProcessedFrameReady qtIdentity healthyDevice pairFrame2x1
    (snd (setForcedResolution (mkSize 0 0) enabledSession))
  = (tt, snd (setForcedResolution (mkSize 0 0) enabledSession)).
Proof.
  apply (empty_forced_resolution_silences qtIdentity healthyDevice pairFrame2x1);
    reflexivity.
Defined.

Lemma formatAll_app (negotiated : option (Z * Z)) (events1 events2 : list Event) :
  formatAll negotiated (events1 ++ events2)
  = match formatAll negotiated events1 with
    | Some negotiated' => formatAll negotiated' events2
    | None => None
    end.
Proof.
  revert negotiated.
  induction events1 as [|e events1 IH]; intros negotiated; cbn [app formatAll];
    [reflexivity|].
  destruct (formatEvent negotiated e); [apply IH | reflexivity].
Qed.

Lemma convert_length (image : QImage) (buffer : QByteArray) (mem : OutMem) :
  convertRgbToYuyv image buffer = (true, mem) ->
  Z.of_nat (length (om_bytes mem))
  = frameBytes (img_width image) (img_height image).
Proof.
  unfold convertRgbToYuyv, frameBytes. destruct (_ || _); [discriminate|].
  intros H; injection H as <-.
  rewrite rowLoop_length. cbn [om_bytes]. rewrite !resize_length. reflexivity.
Qed.

Ltac format_leaf :=
  repeat match goal with
         | H : _ || _ = false |- _ => apply orb_false_iff in H as [? ?]
         | H : negb _ = false |- _ => apply negb_false_iff in H
         end;
  eqb_facts; subst;
  repeat match goal with
         | H : ?a = ?a -> _ |- _ => specialize (H eq_refl)
         | H : _ /\ _ |- _ => destruct H
         end;
  try discriminate;
  rewrite ?formatAll_app;
  repeat first
    [ match goal with H : formatAll None _ = _ |- _ => rewrite H end
    | match goal with
      | H : convertRgbToYuyv _ _ = (true, _) |- _ => rewrite (convert_length _ _ _ H)
      end
    | rewrite Z.eqb_refl
    | progress cbn [formatAll formatEvent] ];
  try reflexivity.

Ltac format_start :=
  unfold formatOk, negotiatedBy; cam_unfold; cam_reduce;
  intros ((Htrack & Hstate & Hpath) & Hformat).

Lemma onProcessedFrameReady_formatOk
    (qt : QtImaging) (k : Kernel) (frame : QImage) (s : Session) :
  formatOk s -> formatOk (snd (onProcessedFrameReady qt k frame s)).
Proof.
  intros H. split; [apply onProcessedFrameReady_ok, H|]. revert H.
  destruct s as [[fd path enabled [|] fw fh forced] past];
    format_start; cam_split; solve [exfalso; eqb_facts; congruence | format_leaf].
Qed.

Lemma setEnabled_formatOk (enabled : bool) (s : Session) :
  formatOk s -> formatOk (snd (setEnabled enabled s)).
Proof.
  intros H. split; [apply setEnabled_ok, H|]. revert H.
  destruct s as [[fd path flag [|] fw fh forced] past];
    format_start; cam_split; solve [exfalso; eqb_facts; congruence | format_leaf].
Qed.

Lemma setForcedResolution_formatOk (resolution : QSize) (s : Session) :
  formatOk s -> formatOk (snd (setForcedResolution resolution s)).
Proof.
  intros H. split; [apply setForcedResolution_ok, H|]. revert H.
  destruct s as [[fd path flag [|] fw fh forced] past];
    format_start; cam_split; solve [exfalso; eqb_facts; congruence | format_leaf].
Qed.

Lemma setDevicePath_formatOk (trimmed : string -> string) (path : string) (s : Session) :
  formatOk s -> formatOk (snd (setDevicePath trimmed path s)).
Proof.
  intros H. split; [apply setDevicePath_ok, H|]. revert H.
  destruct s as [[fd old flag [|] fw fh forced] past];
    format_start; cam_split; solve [exfalso; eqb_facts; congruence | format_leaf].
Qed.

Lemma drive_formatOk (trimmed : string -> string) (qt : QtImaging) (k : Kernel)
    (calls : list StreamerCall) :
  forall s : Session, formatOk s -> formatOk (drive trimmed qt k calls s).
Proof.
  induction calls as [|call calls IH]; intros s Hs; cbn [drive]; [exact Hs|].
  apply IH. destruct call; cbn [perform].
  - apply setDevicePath_formatOk, Hs.
  - apply setEnabled_formatOk, Hs.
  - apply setForcedResolution_formatOk, Hs.
  - apply onProcessedFrameReady_formatOk, Hs.
Qed.

(** Whatever public calls a new streamer receives and whatever the kernel
    answers, every [write] happens after a format request was accepted on
    the descriptor that is open, and hands over the bytes of exactly one
    frame of the size accepted last, [frameBytes width height]; the size
    recorded in [m_frameWidth] and [m_frameHeight] of a configured
    streamer is that size. *)
Theorem writes_match_negotiated_format
    (trimmed : string -> string) (qt : QtImaging) (k : Kernel)
    (calls : list StreamerCall) :
  let s := drive trimmed qt k calls (mkSession newStreamer []) in
  formatAll None (history s) = Some (negotiatedBy (cam s)).
Proof.
  apply (drive_formatOk trimmed qt k calls (mkSession newStreamer [])).
  split; [apply newSession_ok | reflexivity].
Qed.

Lemma frameBytes_fits (width height : Z) :
  0 <= width -> 0 <= height -> width * height * 2 <= INT_MAX ->
  frameBytes width height = width * height * 2.
Proof.
  intros Hw Hh Hfit. unfold frameBytes. rewrite resize_length.
  replace (width *i height *i 2) with (width * height * 2);
    [nia | unfold INT_MAX in *; assert (0 <= width * height) by nia; unwrap_int; reflexivity].
Qed.

Close Scope cam_scope.
